(** * The settings registry of horus/util/profile.py

    A shallow embedding of the Python 2 module [horus.util.profile]: the
    [setting] class, the two module-level registries ([settingsDictionary]
    and [settingsList]), the ini-file store and the compact profile string.

    Python's [str] is a byte string and is modelled by [string] (one [ascii]
    per byte); Python's [unicode] is a sequence of code points and is
    modelled by [list N].  Setting objects live in a heap and are named by
    references, because the dictionary and the list of the module share
    them. *)

From Stdlib Require Import ZArith NArith List String Ascii Bool Lia.
From stdpp Require Import base option list gmap strings pretty.

Local Open Scope Z_scope.

(** ** Python values *)

(** A [unicode] object: its code points. *)
Definition ustring := list N.

(** The exceptions the modelled code can raise.  [InvalidReference] is not a
    Python exception: it is what the model answers for a reference outside
    the heap, which no state built by the module contains (see [wf]). *)
Inductive exn :=
| IndexError | ValueError | NameError | TypeError | UnicodeDecodeError
| ZlibError | IOError | NoSectionError | DuplicateSectionError
| InvalidReference.

Inductive result (A : Type) :=
| Ok (a : A)
| Raise (e : exn).
Arguments Ok {A} a.
Arguments Raise {A} e.

(** The values handed to [setting(...)], [setValue] and [setRange].  A float
    is carried by the text that [str()] prints for it: floating-point
    arithmetic itself is outside this model. *)
Inductive pyvalue :=
| PyNone
| PyBool (b : bool)
| PyInt (z : Z)
| PyFloat (text : string)
| PyStr (s : string)
| PyUnicode (u : ustring).

(** The code points of a byte string, byte by byte. *)
Definition ustr (s : string) : ustring :=
  map N_of_ascii (list_ascii_of_string s).

Definition is_ascii_byte (c : ascii) : bool := (N_of_ascii c <? 128)%N.

(** [unicode(s)] for a byte string [s]: Python 2 decodes with the default
    codec, ASCII, in strict mode. *)
Definition ascii_decode (s : string) : result ustring :=
  if forallb is_ascii_byte (list_ascii_of_string s)
  then Ok (ustr s) else Raise UnicodeDecodeError.

(** The builtin [unicode(value)]. *)
Definition unicode (v : pyvalue) : result ustring :=
  match v with
  | PyNone => Ok (ustr "None")
  | PyBool b => Ok (ustr (if b then "True" else "False"))
  | PyInt z => Ok (ustr (pretty z))
  | PyFloat text => Ok (ustr text)
  | PyStr s => ascii_decode s
  | PyUnicode u => Ok u
  end.

(** One code point in UTF-8. *)
Definition utf8_encode_char (c : N) : list ascii :=
  let byte (n : N) := ascii_of_N n in
  let cont (n : N) := byte (N.lor 128 (N.land n 63)) in
  (if c <? 128 then [byte c]
   else if c <? 2048 then [byte (N.lor 192 (N.shiftr c 6)); cont c]
   else if c <? 65536 then
     [byte (N.lor 224 (N.shiftr c 12)); cont (N.shiftr c 6); cont c]
   else
     [byte (N.lor 240 (N.shiftr c 18)); cont (N.shiftr c 12);
      cont (N.shiftr c 6); cont c])%N.

(** [u.encode('utf-8')]. *)
Definition encode_utf8 (u : ustring) : string :=
  string_of_list_ascii (concat (map utf8_encode_char u)).

(** ** Python lists indexed by an integer *)

(** [l[i]]: a negative index counts from the end; outside
    [-len(l) <= i < len(l)] the access raises [IndexError]. *)
Definition list_getitem {A} (l : list A) (i : Z) : result A :=
  let n := Z.of_nat (length l) in
  let j := if i <? 0 then i + n else i in
  if (j <? 0) || (n <=? j) then Raise IndexError
  else match l !! Z.to_nat j with
       | Some x => Ok x
       | None => Raise IndexError
       end.

(** [l[i] = x]. *)
Definition list_setitem {A} (l : list A) (i : Z) (x : A) : result (list A) :=
  let n := Z.of_nat (length l) in
  let j := if i <? 0 then i + n else i in
  if (j <? 0) || (n <=? j) then Raise IndexError
  else Ok (<[Z.to_nat j := x]> l).

(** ** The class [setting] *)

Inductive pytype := FloatType | IntType | StrType | OtherType.

Inductive validator_kind := validFloat | validInt.

(** Modelled from the spec: the module [horus.util.validators] is not part of
    the sources at hand.  The spec says that a validator is a numeric-range
    check with two bounds that [setRange] configures; the fields keep the
    names [setRange] assigns to. *)
Record validator := mkValidator {
  kind : validator_kind;
  minValue : pyvalue;
  maxValue : pyvalue
}.

(** The attributes [__init__] creates.  [_conditions] holds callables over the
    whole program state; no operation modelled here reads them, and the field
    is left out. *)
Record setting := mkSetting {
  _name : string;
  _label : string;
  _tooltip : string;
  _default : ustring;
  _values : list ustring;
  _type : pytype;
  _category : string;
  _subcategory : string;
  _validators : list validator
}.

Definition with_values (self : setting) (values : list ustring) : setting :=
  mkSetting (_name self) (_label self) (_tooltip self) (_default self) values
            (_type self) (_category self) (_subcategory self) (_validators self).

Definition with_validators (self : setting) (vs : list validator) : setting :=
  mkSetting (_name self) (_label self) (_tooltip self) (_default self)
            (_values self) (_type self) (_category self) (_subcategory self) vs.

Definition with_label (self : setting) (label tooltip : string) : setting :=
  mkSetting (_name self) label tooltip (_default self) (_values self)
            (_type self) (_category self) (_subcategory self) (_validators self).

(** What a method returns when it returns [None] or [self]. *)
Inductive retval := RetNone | RetSelf.

Definition setLabel (self : setting) (label tooltip : string)
  : setting * retval :=
  (with_label self label tooltip, RetSelf).

Definition setRange (self : setting) (minValue maxValue : pyvalue)
  : setting * retval :=
  match _validators self with
  | [] => (self, RetNone)
  | v :: vs =>
      (with_validators self (mkValidator (kind v) minValue maxValue :: vs),
       RetSelf)
  end.

Definition isPreference (self : setting) : bool :=
  String.eqb (_category self) "preference".

Definition isMachineSetting (self : setting) : bool :=
  String.eqb (_category self) "machine".

Definition isProfile (self : setting) : bool :=
  negb (isPreference self) && negb (isMachineSetting self).

(** [getValueIndex]; [sel] is the module global [_selectedMachineIndex]. *)
Definition getValueIndex (sel : Z) (self : setting) : Z :=
  if isMachineSetting self || isProfile self then sel else 0.

Definition getValue (sel : Z) (self : setting) (index : option Z)
  : result ustring :=
  let index := match index with
               | None => getValueIndex sel self
               | Some i => i
               end in
  if Z.of_nat (length (_values self)) <=? index then Ok (_default self)
  else list_getitem (_values self) index.

(** The loop [while index >= len(self._values): self._values.append(default)],
    run for at most [fuel] iterations. *)
Fixpoint pad_values (fuel : nat) (index : Z) (default : ustring)
  (values : list ustring) : list ustring :=
  match fuel with
  | O => values
  | S fuel' =>
      if Z.of_nat (length values) <=? index
      then pad_values fuel' index default (values ++ [default])
      else values
  end.

(** [setValue] returns the object as the call leaves it, also when it raises:
    the padding is done before [unicode(value)] is evaluated.  The loop needs
    [index + 1 - len] iterations, see [pad_values_exit]. *)
Definition setValue (sel : Z) (self : setting) (value : pyvalue)
  (index : option Z) : setting * result unit :=
  let index := match index with
               | None => getValueIndex sel self
               | Some i => i
               end in
  let fuel := Z.to_nat (index + 1 - Z.of_nat (length (_values self))) in
  let padded := pad_values fuel index (_default self) (_values self) in
  match unicode value with
  | Raise e => (with_values self padded, Raise e)
  | Ok u =>
      match list_setitem padded index u with
      | Raise e => (with_values self padded, Raise e)
      | Ok values' => (with_values self values', Ok tt)
      end
  end.

Definition getName (self : setting) : string := _name self.
Definition getDefault (self : setting) : ustring := _default self.

(** ** The module state *)

(** The globals of the module and the part of the world it touches.  [heap]
    holds the setting objects; a reference is a position in it.  [files] maps
    a path to the text last written to it, [unwritable] lists the paths on
    which [open(path, 'w')] fails, and [stderr] collects the diagnostics. *)
Record state := mkState {
  heap : list setting;
  settingsDictionary : gmap string nat;
  settingsList : list nat;
  _selectedMachineIndex : Z;
  files : gmap string string;
  unwritable : list string;
  stderr : list string
}.

Definition with_heap (st : state) (h : list setting) : state :=
  mkState h (settingsDictionary st) (settingsList st)
          (_selectedMachineIndex st) (files st) (unwritable st) (stderr st).

Definition with_stderr (st : state) (e : list string) : state :=
  mkState (heap st) (settingsDictionary st) (settingsList st)
          (_selectedMachineIndex st) (files st) (unwritable st) e.

Definition with_files (st : state) (f : gmap string string) : state :=
  mkState (heap st) (settingsDictionary st) (settingsList st)
          (_selectedMachineIndex st) f (unwritable st) (stderr st).

(** Code that reads and mutates the state and may raise.  A raise keeps the
    mutations made so far. *)
Definition M (A : Type) : Type := state -> state * result A.

Definition ret {A} (a : A) : M A := fun st => (st, Ok a).

Definition raise {A} (e : exn) : M A := fun st => (st, Raise e).

Definition bind {A B} (m : M A) (k : A -> M B) : M B :=
  fun st =>
    match m st with
    | (st', Ok a) => k a st'
    | (st', Raise e) => (st', Raise e)
    end.

Definition lift {A} (r : result A) : M A := fun st => (st, r).

Definition gets {A} (f : state -> A) : M A := fun st => (st, Ok (f st)).

Notation "'do' x <- m ; k" := (bind m (fun x => k))
  (at level 10, x name, m at level 100, k at level 200).
Notation "'do' ' p <- m ; k" := (bind m (fun x => let 'p := x in k))
  (at level 10, p strict pattern, m at level 100, k at level 200).

(** [for x in l: body(x)]. *)
Fixpoint for_each {A} (l : list A) (body : A -> M unit) : M unit :=
  match l with
  | [] => ret tt
  | x :: l' => do _ <- body x; for_each l' body
  end.

(** A [for] loop whose body updates a local variable [acc]. *)
Fixpoint for_fold {A S} (l : list A) (acc : S) (body : A -> S -> M S) : M S :=
  match l with
  | [] => ret acc
  | x :: l' => do acc' <- body x acc; for_fold l' acc' body
  end.

(** Reading the object behind a reference. *)
Definition deref (r : nat) : M setting :=
  fun st =>
    match heap st !! r with
    | Some self => (st, Ok self)
    | None => (st, Raise InvalidReference)
    end.

(** The method calls [r.getValue(index)], [r.setValue(value, index)],
    [r.setRange(min, max)] and [r.setLabel(label, tooltip)] on the object
    behind [r]. *)
Definition call_getValue (r : nat) (index : option Z) : M ustring :=
  do self <- deref r;
  fun st => (st, getValue (_selectedMachineIndex st) self index).

Definition call_setValue (r : nat) (value : pyvalue) (index : option Z)
  : M unit :=
  do self <- deref r;
  fun st =>
    let '(self', res) := setValue (_selectedMachineIndex st) self value index in
    (with_heap st (<[r := self']> (heap st)), res).

Definition call_setRange (r : nat) (minValue maxValue : pyvalue) : M retval :=
  do self <- deref r;
  fun st =>
    let '(self', res) := setRange self minValue maxValue in
    (with_heap st (<[r := self']> (heap st)), Ok res).

Definition call_setLabel (r : nat) (label tooltip : string) : M retval :=
  do self <- deref r;
  fun st =>
    let '(self', res) := setLabel self label tooltip in
    (with_heap st (<[r := self']> (heap st)), Ok res).

(** Modelled from the spec: [validators.validFloat(self)] and
    [validators.validInt(self)] are not in the sources at hand.  By the spec a
    float or int setting gets one numeric-range validator attached at
    construction, with no bounds until [setRange] gives them. *)
Definition attached_validators (type : pytype) : list validator :=
  match type with
  | FloatType => [mkValidator validFloat PyNone PyNone]
  | IntType => [mkValidator validInt PyNone PyNone]
  | _ => []
  end.

(** [setting(name, default, type, category, subcategory)]: [__init__] and
    the registration in both registries.  The result is the reference of the
    new object. *)
Definition setting_init (name : string) (default : pyvalue) (type : pytype)
  (category subcategory : string) : M nat :=
  do d <- lift (unicode default);
  fun st =>
    let self := mkSetting name name "" d [] type category subcategory
                          (attached_validators type) in
    let r := length (heap st) in
    (mkState (heap st ++ [self])
             (<[name := r]> (settingsDictionary st))
             (settingsList st ++ [r])
             (_selectedMachineIndex st) (files st) (unwritable st) (stderr st),
     Ok r).

(** The state in which the module body starts: both registries empty, the
    selected machine index 0. *)
Definition empty_state (fs : gmap string string) (ro : list string) : state :=
  mkState [] ∅ [] 0 fs ro [].

(** The four settings the module declares (lines 182 to 187). *)
Definition module_body : M unit :=
  do r <- setting_init "step_degrees" (PyFloat "0.45") FloatType "basic"
                       "Step Degrees";
  do _ <- call_setRange r (PyFloat "0.1125") PyNone;
  do r <- setting_init "step_delay" (PyInt 800) IntType "basic" "Step Delay";
  do _ <- call_setRange r (PyInt 100) (PyInt 10000);
  do _ <- setting_init "machine_name" (PyStr "") StrType "machine" "hidden";
  do r <- setting_init "language" (PyStr "English") StrType "preference"
                       "hidden";
  do _ <- call_setLabel r "Language"
    "Change the language in which Horus runs. Switching language requires a restart of Horus";
  ret tt.

(** The state right after the module is imported. *)
Definition initial_state : state := fst (module_body (empty_state ∅ [])).

(** A state is well formed when every reference of the two registries is in
    the heap. *)
Definition wf (st : state) : Prop :=
  Forall (fun r => (r < length (heap st))%nat) (settingsList st) ∧
  map_Forall (fun _ r => (r < length (heap st))%nat) (settingsDictionary st).

(** ** Byte strings *)

Definition BS : ascii := ascii_of_nat 8.    (* '\b', the pair separator *)
Definition FF : ascii := ascii_of_nat 12.   (* '\f', the block separator *)
Definition NL : ascii := ascii_of_nat 10.   (* '\n' *)
Definition TAB : ascii := ascii_of_nat 9.   (* '\t' *)
Definition EQ : ascii := "="%char.
Definition DQUOTE : ascii := ascii_of_nat 34.

Definition str1 (c : ascii) : string := String c EmptyString.

Fixpoint str_contains (sep : ascii) (s : string) : bool :=
  match s with
  | EmptyString => false
  | String c s' => Ascii.eqb c sep || str_contains sep s'
  end.

(** The text before and after the first [sep], when there is one. *)
Fixpoint str_partition (sep : ascii) (s : string) : option (string * string) :=
  match s with
  | EmptyString => None
  | String c s' =>
      if Ascii.eqb c sep then Some (EmptyString, s')
      else match str_partition sep s' with
           | Some (a, b) => Some (String c a, b)
           | None => None
           end
  end.

(** [s.split(sep, 1)]. *)
Definition str_split1 (sep : ascii) (s : string) : list string :=
  match str_partition sep s with
  | Some (a, b) => [a; b]
  | None => [s]
  end.

(** [s.split(sep)]. *)
Fixpoint str_split (sep : ascii) (s : string) : list string :=
  match s with
  | EmptyString => [EmptyString]
  | String c s' =>
      if Ascii.eqb c sep then EmptyString :: str_split sep s'
      else match str_split sep s' with
           | h :: t => String c h :: t
           | [] => [str1 c]
           end
  end.

(** [sep.join(l)]. *)
Fixpoint str_join (sep : ascii) (l : list string) : string :=
  match l with
  | [] => EmptyString
  | [x] => x
  | x :: l' => x +:+ String sep (str_join sep l')
  end.

(** [(a, b) = l]: unpacking into two names. *)
Definition unpack2 {A} (l : list A) : result (A * A) :=
  match l with
  | [a; b] => Ok (a, b)
  | _ => Raise ValueError
  end.

Definition lower_char (c : ascii) : ascii :=
  let n := N_of_ascii c in
  if ((65 <=? n) && (n <=? 90))%N then ascii_of_N (n + 32) else c.

(** [s.lower()] on a byte string. *)
Fixpoint str_lower (s : string) : string :=
  match s with
  | EmptyString => EmptyString
  | String c s' => String (lower_char c) (str_lower s')
  end.

(** [s.replace('\n', '\n\t')]. *)
Fixpoint indent_newlines (s : string) : string :=
  match s with
  | EmptyString => EmptyString
  | String c s' =>
      if Ascii.eqb c NL then String NL (String TAB (indent_newlines s'))
      else String c (indent_newlines s')
  end.

(** ** ConfigParser *)

(** The part of Python 2.7's [ConfigParser.ConfigParser] the module uses when
    it saves: the ordered dictionary of sections, each an ordered dictionary
    of options.  The [DEFAULT] section is left out: the module only names the
    sections [profile], [profile_N], [preference] and [machine_N]. *)
Definition ConfigParser := list (string * list (string * string)).

Definition new_parser : ConfigParser := [].

Definition has_section (p : ConfigParser) (section : string) : bool :=
  existsb (fun s => String.eqb (fst s) section) p.

Definition add_section (p : ConfigParser) (section : string)
  : result ConfigParser :=
  if String.eqb (str_lower section) "default" then Raise ValueError
  else if has_section p section then Raise DuplicateSectionError
  else Ok (p ++ [(section, [])]).

(** [d[k] = v] on an ordered dictionary. *)
Fixpoint odict_set (d : list (string * string)) (k v : string)
  : list (string * string) :=
  match d with
  | [] => [(k, v)]
  | (k', v') :: d' =>
      if String.eqb k' k then (k, v) :: d' else (k', v') :: odict_set d' k v
  end.

Definition optionxform (option : string) : string := str_lower option.

(** [parser.set(section, option, value)]. *)
Fixpoint parser_set (p : ConfigParser) (section option value : string)
  : result ConfigParser :=
  match p with
  | [] => Raise NoSectionError
  | (name, opts) :: p' =>
      if String.eqb name section
      then Ok ((name, odict_set opts (optionxform option) value) :: p')
      else match parser_set p' section option value with
           | Ok p'' => Ok ((name, opts) :: p'')
           | Raise e => Raise e
           end
  end.

Definition render_option (kv : string * string) : string :=
  if String.eqb (fst kv) "__name__" then EmptyString
  else fst kv +:+ " = " +:+ indent_newlines (snd kv) +:+ str1 NL.

Definition render_section (s : string * list (string * string)) : string :=
  "[" +:+ fst s +:+ "]" +:+ str1 NL
  +:+ String.concat EmptyString (map render_option (snd s)) +:+ str1 NL.

(** The text [parser.write(fp)] produces. *)
Definition render (p : ConfigParser) : string :=
  String.concat EmptyString (map render_section p).

(** [parser.write(open(filename, 'w'))]: opening fails with [IOError] on an
    unwritable path; otherwise the file holds the rendered parser. *)
Definition write_file (filename : string) (p : ConfigParser) : M unit :=
  fun st =>
    if existsb (String.eqb filename) (unwritable st) then (st, Raise IOError)
    else (with_files st (<[filename := render p]> (files st)), Ok tt).

(** [xrange(0, n)]. *)
Definition xrange0 (n : Z) : list Z := map Z.of_nat (seq 0 (Z.to_nat n)).

(** Calling a module-level name: [NameError] when the module does not bind
    it. *)
Definition call_global {A} (binding : option (M A)) : M A :=
  match binding with
  | Some f => f
  | None => raise NameError
  end.

(** ** Saving the profile *)

(** The body of the loop [for n in xrange(0, getMachineCount())] of
    [saveProfile], for the setting [self] behind [set]. *)
Definition profile_section (set : nat) (self : setting) (n : Z)
  (profileParser : ConfigParser) : M ConfigParser :=
  let section := "profile_" +:+ pretty n in
  do profileParser <-
    (if has_section profileParser section then ret profileParser
     else lift (add_section profileParser section));
  do v <- call_getValue set (Some n);
  lift (parser_set profileParser section (getName self) (encode_utf8 v)).

(** [saveProfile], with the binding of the global name [getMachineCount] as
    a parameter. *)
Definition saveProfile_with (getMachineCount : option (M Z))
  (filename : string) (allMachines : bool) : M unit :=
  let profileParser := new_parser in
  do profileParser <-
    (if allMachines then
       do lst <- gets settingsList;
       for_fold lst profileParser (fun set profileParser =>
         do self <- deref set;
         if isPreference self || isMachineSetting self then ret profileParser
         else
           do count <- call_global getMachineCount;
           for_fold (xrange0 count) profileParser (profile_section set self))
     else
       do profileParser <- lift (add_section profileParser "profile");
       do lst <- gets settingsList;
       for_fold lst profileParser (fun set profileParser =>
         do self <- deref set;
         if isPreference self || isMachineSetting self then ret profileParser
         else
           do v <- call_getValue set None;
           lift (parser_set profileParser "profile" (getName self)
                            (encode_utf8 v))));
  write_file filename profileParser.

(** The module defines no [getMachineCount] and imports none: the name is
    unbound when [saveProfile] runs. *)
Definition saveProfile : string -> bool -> M unit := saveProfile_with None.

(** ** Saving the preferences *)

(** The value a getter hands back: a stored [unicode] value, or the byte
    string [''] of the fall-through. *)
Definition py_is_empty (v : pyvalue) : bool :=
  match v with
  | PyUnicode [] => true
  | PyStr EmptyString => true
  | _ => false
  end.

Definition write_stderr (msg : string) : M unit :=
  fun st => (with_stderr st (stderr st ++ [msg]), Ok tt).

(** [getMachineSetting(name, index)].  The stack trace that
    [traceback.print_stack()] prints before the message is not recorded. *)
Definition getMachineSetting (name : string) (index : option Z) : M pyvalue :=
  do d <- gets settingsDictionary;
  do found <-
    match d !! name with
    | Some r =>
        do self <- deref r;
        if isMachineSetting self
        then do v <- call_getValue r index; ret (Some (PyUnicode v))
        else ret None
    | None => ret None
    end;
  match found with
  | Some v => ret v
  | None =>
      do _ <- write_stderr ("Error: " +:+ str1 DQUOTE +:+ name +:+ str1 DQUOTE
                            +:+ " not found in machine settings" +:+ str1 NL);
      ret (PyStr EmptyString)
  end.

(** The body of the [while] loop of [savePreferences] for one [n]. *)
Definition machine_section (n : Z) (parser : ConfigParser) : M ConfigParser :=
  let section := "machine_" +:+ pretty n in
  do parser <- lift (add_section parser section);
  do lst <- gets settingsList;
  for_fold lst parser (fun set parser =>
    do self <- deref set;
    if isMachineSetting self then
      do v <- call_getValue set (Some n);
      lift (parser_set parser section (getName self) (encode_utf8 v))
    else ret parser).

(** The loop [while getMachineSetting('machine_name', n) != '': ...; n += 1].
    [None] means that [fuel] iterations were not enough. *)
Fixpoint machine_sections (fuel : nat) (n : Z) (parser : ConfigParser)
  (st : state) : option (state * result ConfigParser) :=
  match fuel with
  | O => None
  | S fuel' =>
      match getMachineSetting "machine_name" (Some n) st with
      | (st1, Raise e) => Some (st1, Raise e)
      | (st1, Ok name) =>
          if py_is_empty name then Some (st1, Ok parser)
          else match machine_section n parser st1 with
               | (st2, Raise e) => Some (st2, Raise e)
               | (st2, Ok parser') =>
                   machine_sections fuel' (n + 1) parser' st2
               end
      end
  end.

(** The [for] loop over the preference settings. *)
Definition preference_section (parser : ConfigParser) : M ConfigParser :=
  do lst <- gets settingsList;
  for_fold lst parser (fun set parser =>
    do self <- deref set;
    if isPreference self then
      do v <- call_getValue set None;
      lift (parser_set parser "preference" (getName self) (encode_utf8 v))
    else ret parser).

(** [savePreferences(filename)].  The second component of a result is the
    parser as it stands when the function leaves (handed to [write] when
    nothing was raised before). *)
Definition savePreferences_parser (fuel : nat) (st : state)
  : option (state * result ConfigParser) :=
  match (do parser <- lift (add_section new_parser "preference");
         preference_section parser) st with
  | (st1, Raise e) => Some (st1, Raise e)
  | (st1, Ok parser) => machine_sections fuel 0 parser st1
  end.

Definition savePreferences (fuel : nat) (filename : string) (st : state)
  : option (state * result unit) :=
  match savePreferences_parser fuel st with
  | None => None
  | Some (st1, Raise e) => Some (st1, Raise e)
  | Some (st1, Ok parser) => Some (write_file filename parser st1)
  end.

(** ** The compact profile string *)

(** The two library codecs of the transport string, with the contracts the
    module relies on: decoding an encoding gives the bytes back.  What else
    the decoders accept, and which exception they raise, is left open. *)
Class Codecs := {
  b64encode : string -> string;
  b64decode : string -> result string;
  zlib_compress : string -> Z -> string;
  zlib_decompress : string -> result string;
  b64decode_b64encode : ∀ s, b64decode (b64encode s) = Ok s;
  zlib_decompress_compress :
    ∀ s level, zlib_decompress (zlib_compress s level) = Ok s
}.

Section Codec.
Context {codecs : Codecs}.

(** One [key=value] pair of the primary block ([any_category = false]) or of
    the alt block ([any_category = true]). *)
Definition apply_option (any_category : bool) (option : string) : M unit :=
  if (0 <? String.length option)%nat then
    do '(key, value) <- lift (unpack2 (str_split1 EQ option));
    do d <- gets settingsDictionary;
    match d !! key with
    | Some r =>
        if any_category then call_setValue r (PyStr value) None
        else
          do self <- deref r;
          if isProfile self then call_setValue r (PyStr value) None
          else ret tt
    | None => ret tt
    end
  else ret tt.

Definition setProfileFromString (options : string) : M unit :=
  do options <- lift (b64decode options);
  do options <- lift (zlib_decompress options);
  do '(profileOpts, alt) <- lift (unpack2 (str_split1 FF options));
  do _ <- for_each (str_split BS profileOpts) (apply_option false);
  for_each (str_split BS alt) (apply_option true).

(** The list [p] of [getProfileString]. *)
Definition profile_pairs : M (list string) :=
  do lst <- gets settingsList;
  for_fold lst [] (fun set p =>
    do self <- deref set;
    if isProfile self then
      do v <- call_getValue set None;
      ret (p ++ [getName self +:+ str1 EQ +:+ encode_utf8 v])
    else ret p).

Definition getProfileString : M string :=
  do p <- profile_pairs;
  let alt := [] in
  let ret_ := str_join BS p +:+ str1 FF +:+ str_join BS alt in
  ret (b64encode (zlib_compress ret_ 9)).

End Codec.

(** A pair of codecs that leave the bytes as they are: the smallest instance
    of the contracts, used to run the codec functions on concrete input. *)
Definition plain_codecs : Codecs :=
  {| b64encode := fun s => s;
     b64decode := fun s => Ok s;
     zlib_compress := fun s _ => s;
     zlib_decompress := fun s => Ok s;
     b64decode_b64encode := fun s => eq_refl;
     zlib_decompress_compress := fun s _ => eq_refl |}.

(** ** Expected results, used in the statements *)

(** The first index at which [values] holds the empty string, or the length
    of [values] when it holds none. *)
Fixpoint first_empty (values : list ustring) : nat :=
  match values with
  | [] => 0
  | [] :: _ => 0
  | _ :: values' => S (first_empty values')
  end.

(** What one setting adds to the options of a section in a pass that stores,
    for every setting [select] accepts, its value at [index] under its
    name. *)
Definition store_option (st : state) (select : setting → bool)
  (index : option Z) (opts : list (string * string)) (r : nat)
  : list (string * string) :=
  match heap st !! r with
  | Some self =>
      if select self then
        match getValue (_selectedMachineIndex st) self index with
        | Ok v => odict_set opts (optionxform (getName self)) (encode_utf8 v)
        | Raise _ => opts
        end
      else opts
  | None => opts
  end.

(** The options of a section after such a pass over [settingsList]. *)
Definition section_options (st : state) (select : setting → bool)
  (index : option Z) : list (string * string) :=
  foldl (store_option st select index) [] (settingsList st).

Definition machine_section_name (n : nat) : string :=
  "machine_" +:+ pretty (Z.of_nat n).

(** The parser [savePreferences] hands to [write] when the machine list has
    [k] entries. *)
Definition preferences_parser (st : state) (k : nat) : ConfigParser :=
  ("preference", section_options st isPreference None)
  :: map (fun n => (machine_section_name n,
                    section_options st isMachineSetting
                                    (Some (Z.of_nat n))))
         (seq 0 k).

Definition profile_section_name (n : nat) : string :=
  "profile_" +:+ pretty (Z.of_nat n).
Arguments profile_section_name : simpl never.

(** Whether the references [l] hold a profile setting. *)
Definition has_profile (st : state) (l : list nat) : bool :=
  existsb (fun r => match heap st !! r with
                    | Some self => isProfile self
                    | None => false
                    end) l.

(** The parser [saveProfile(filename, True)] builds when a binding of
    [getMachineCount] returns [count]: the sections [profile_0] to
    [profile_(count-1)], each with every profile setting's value at its
    index; no section at all when the list holds no profile setting. *)
Definition all_profiles_parser (st : state) (count : nat) : ConfigParser :=
  if has_profile st (settingsList st) then
    map (fun n => (profile_section_name n,
                   section_options st isProfile (Some (Z.of_nat n))))
        (seq 0 count)
  else [].

(** A value the compact string carries unharmed: ASCII code points only,
    none of them a separator. *)
Definition plain_value (v : ustring) : Prop :=
  Forall (fun c => (c < 128)%N ∧ c ≠ 8%N ∧ c ≠ 12%N) v.

(** A name without [=] and without separator byte. *)
Definition plain_name (name : string) : Prop :=
  str_contains EQ name = false ∧
  str_contains BS name = false ∧
  str_contains FF name = false.

(** Every profile setting of the list has a plain name and, at the current
    index, a plain value. *)
Definition shareable (st : state) : Prop :=
  ∀ r self,
    r ∈ settingsList st → heap st !! r = Some self → isProfile self = true →
    plain_name (_name self) ∧
    ∃ v, getValue (_selectedMachineIndex st) self None = Ok v ∧ plain_value v.

(** [st'] has the registries, the selected index and the settings of [st],
    with possibly other values stored in them. *)
Definition same_registry (st st' : state) : Prop :=
  settingsDictionary st' = settingsDictionary st ∧
  settingsList st' = settingsList st ∧
  _selectedMachineIndex st' = _selectedMachineIndex st ∧
  length (heap st') = length (heap st) ∧
  ∀ r self self',
    heap st !! r = Some self → heap st' !! r = Some self' →
    _name self' = _name self ∧ _category self' = _category self.

(** A profile setting behind [r] is restored in [fin]: it reads, at the
    current index, what it read in [st]. *)
Definition restored (st fin : state) (r : nat) : Prop :=
  ∀ self, heap st !! r = Some self → isProfile self = true →
    ∃ self'', heap fin !! r = Some self'' ∧
      getValue (_selectedMachineIndex fin) self'' None
        = getValue (_selectedMachineIndex st) self None.

(** The pairs [getProfileString] collects over the references [l]. *)
Definition expected_pairs (st : state) (l : list nat) : list string :=
  flat_map (fun r =>
              match heap st !! r with
              | Some self =>
                  if isProfile self then
                    match getValue (_selectedMachineIndex st) self None with
                    | Ok v => [getName self +:+ str1 EQ +:+ encode_utf8 v]
                    | Raise _ => []
                    end
                  else []
              | None => []
              end) l.

(** ** Concrete states, used to run the functions *)

(** The [machine_name] setting as the module declares it. *)
Definition machine_name_setting : setting :=
  mkSetting "machine_name" "machine_name" "" [] [] StrType "machine" "hidden"
            [].

(** The module state after two machines were named: reference 2 is the
    [machine_name] setting. *)
Definition two_machines_state : state :=
  fst ((do _ <- call_setValue 2 (PyStr "Zum") (Some 0);
        call_setValue 2 (PyStr "Ciclop") (Some 1)) initial_state).

(** The module state after two profile values were stored: references 0 and
    1 are [step_degrees] and [step_delay]. *)
Definition tuned_state : state :=
  fst ((do _ <- call_setValue 0 (PyStr "0.9") None;
        call_setValue 1 (PyInt 1200) None) initial_state).

(** A registry with one more profile setting, reference 4, whose name holds
    the pair separator; and the same registry after that setting got another
    value. *)
Definition odd_name : string := "laser" +:+ str1 BS +:+ "angle".

Definition odd_name_state : state :=
  fst (setting_init odd_name (PyInt 30) IntType "basic" "Laser" initial_state).

Definition odd_name_state_changed : state :=
  fst (call_setValue 4 (PyInt 45) None odd_name_state).

(** The module state after [step_degrees] got the one-character value
    [u'\xe9']. *)
Definition accent_state : state :=
  fst (call_setValue 0 (PyUnicode [233%N]) None initial_state).

(** A registry in which the name [exposure] was registered twice, references
    4 and 5; and the same registry after both settings got the value 9. *)
Definition shadowed_state : state :=
  fst ((do _ <- setting_init "exposure" (PyInt 1) IntType "basic" "Camera";
        setting_init "exposure" (PyInt 2) IntType "basic" "Camera")
         initial_state).

Definition shadowed_state_changed : state :=
  fst ((do _ <- call_setValue 4 (PyInt 9) None;
        call_setValue 5 (PyInt 9) None) shadowed_state).

(** ** Further operations of the module *)

Definition getCategory (self : setting) : string := _category self.
Definition getSubCategory (self : setting) : string := _subcategory self.
Definition getType (self : setting) : pytype := _type self.

(** *** validate *)

(** Modelled from the spec: the constants [validators.SUCCESS],
    [validators.WARNING] and [validators.ERROR] are not in the sources at
    hand; by the spec they are three distinct outcomes. *)
Inductive outcome := SUCCESS | WARNING | ERROR.

Definition outcome_eqb (a b : outcome) : bool :=
  match a, b with
  | SUCCESS, SUCCESS | WARNING, WARNING | ERROR, ERROR => true
  | _, _ => false
  end.

Section Validate.

(** What [validator.validate()] answers for a validator of [self]: the
    outcome and the message.  Its body is in the absent module. *)
Variable validator_validate : setting → validator → outcome * string.

(** One round of the loop of [validate]. *)
Definition validate_step (self : setting) (acc : outcome * list string)
  (v : validator) : outcome * list string :=
  let '(result, msgs) := acc in
  let '(res, err) := validator_validate self v in
  let result :=
    if outcome_eqb res ERROR then res
    else if outcome_eqb res WARNING && negb (outcome_eqb result ERROR)
         then res else result in
  let msgs := if negb (outcome_eqb res SUCCESS) then msgs ++ [err] else msgs in
  (result, msgs).

Definition validate (self : setting) : outcome * string :=
  let '(result, msgs) :=
    foldl (validate_step self) (SUCCESS, []) (_validators self) in
  (result, str_join NL msgs).

End Validate.

(** *** Conditions and the registry queries *)

Section Conditions.

(** The callables in [_conditions] of the object behind a reference, taken as
    predicates on the state: the record [setting] leaves that attribute
    out. *)
Variable conditions : nat → list (state → bool).

(** [checkConditions]: false at the first condition that does not hold. *)
Definition checkConditions (r : nat) : M bool :=
  fun st => (st, Ok (forallb (fun condition => condition st) (conditions r))).

Definition getSubCategoriesFor (category : string) : M (list string) :=
  do lst <- gets settingsList;
  do acc <- for_fold lst ((∅ : gmap string bool), ([] : list string))
    (fun s acc =>
       let '(done, ret_) := acc in
       do self <- deref s;
       if String.eqb (getCategory self) category
          && negb (bool_decide (is_Some (done !! getSubCategory self)))
       then
         do active <- checkConditions s;
         if active
         then ret (<[getSubCategory self := true]> done,
                   ret_ ++ [getSubCategory self])
         else ret (done, ret_)
       else ret (done, ret_));
  ret (snd acc).

(** [getSettingsForCategory]; the result lists the objects by reference. *)
Definition getSettingsForCategory (category : string)
  (subCategory : option string) : M (list nat) :=
  do lst <- gets settingsList;
  for_fold lst [] (fun s ret_ =>
    do self <- deref s;
    if String.eqb (getCategory self) category
       && match subCategory with
          | None => true
          | Some sub => String.eqb (getSubCategory self) sub
          end
    then
      do active <- checkConditions s;
      if active then ret (ret_ ++ [s]) else ret ret_
    else ret ret_).

End Conditions.

(** *** resetProfile *)

Definition resetProfile : M unit :=
  do lst <- gets settingsList;
  for_each lst (fun set =>
    do self <- deref set;
    if negb (isProfile self) then ret tt
    else call_setValue set (PyUnicode (getDefault self)) None).

(** *** Access by name *)

(** The test [name in settingsDictionary and settingsDictionary[name].isX()]
    of the access functions: the reference of the setting when it holds. *)
Definition registered_as (isX : setting → bool) (name : string)
  : M (option nat) :=
  do d <- gets settingsDictionary;
  match d !! name with
  | Some r => do self <- deref r; ret (if isX self then Some r else None)
  | None => ret None
  end.




Definition isProfileSetting (name : string) : M bool :=
  do found <- registered_as isProfile name;
  ret (match found with Some _ => true | None => false end).


(** The module-level functions [isPreference(name)] and
    [isMachineSetting(name)], which share their names with the methods. *)
Module ByName.

Definition isPreference (name : string) : M bool :=
  do found <- registered_as isPreference name;
  ret (match found with Some _ => true | None => false end).

Definition isMachineSetting (name : string) : M bool :=
  do found <- registered_as isMachineSetting name;
  ret (match found with Some _ => true | None => false end).

End ByName.

Section PreferencePath.

(** What [getPreferencePath()] returns; it depends on the platform and the
    home directory. *)
Variable preference_path : string.



End PreferencePath.

(** *** The preferences string *)

Section PreferencesString.
Context {codecs : Codecs}.

(** The list [p] of [getPreferencesString]. *)
Definition preference_pairs : M (list string) :=
  do lst <- gets settingsList;
  for_fold lst [] (fun set p =>
    do self <- deref set;
    if isPreference self then
      do v <- call_getValue set None;
      ret (p ++ [getName self +:+ str1 EQ +:+ encode_utf8 v])
    else ret p).

Definition getPreferencesString : M string :=
  do p <- preference_pairs;
  let ret_ := str_join BS p in
  ret (b64encode (zlib_compress ret_ 9)).

End PreferencesString.

(** *** insertNewlines *)




(** *** Expected results and reachable states, used in the statements *)

(** How severe an outcome is. *)
Definition severity (o : outcome) : nat :=
  match o with SUCCESS => 0 | WARNING => 1 | ERROR => 2 end.

(** The operations by which code outside the module builds and changes the
    registry: constructing a setting and calling a mutating method on one. *)
Inductive op :=
| OpInit (name : string) (default : pyvalue) (type : pytype)
         (category subcategory : string)
| OpSetValue (r : nat) (value : pyvalue) (index : option Z)
| OpSetRange (r : nat) (minValue maxValue : pyvalue)
| OpSetLabel (r : nat) (label tooltip : string).

Definition run_op (st : state) (o : op) : state :=
  match o with
  | OpInit name default type category subcategory =>
      fst (setting_init name default type category subcategory st)
  | OpSetValue r value index => fst (call_setValue r value index st)
  | OpSetRange r lo hi => fst (call_setRange r lo hi st)
  | OpSetLabel r label tooltip => fst (call_setLabel r label tooltip st)
  end.

(** The state after a sequence of operations, from the empty registries. *)
Definition run_ops (fs : gmap string string) (ro : list string)
  (ops : list op) : state :=
  foldl run_op (empty_state fs ro) ops.

(** The list mirrors the heap in construction order; a dictionary entry leads
    to an object of that name; and the name of every object is bound in the
    dictionary, to that object or to one constructed later. *)
Definition registry_inv (st : state) : Prop :=
  settingsList st = seq 0 (length (heap st)) ∧
  (∀ k r, settingsDictionary st !! k = Some r →
          ∃ self, heap st !! r = Some self ∧ _name self = k) ∧
  (∀ r self, heap st !! r = Some self →
             ∃ r', settingsDictionary st !! _name self = Some r' ∧
                   (r <= r')%nat).

(** Whether the object behind [r] is a setting of [category] all of whose
    conditions hold, and its subcategory. *)
Definition active_in (conditions : nat → list (state → bool)) (st : state)
  (category : string) (r : nat) : bool :=
  match heap st !! r with
  | Some self =>
      String.eqb (getCategory self) category
      && forallb (fun condition => condition st) (conditions r)
  | None => false
  end.

Definition subcategory_of (st : state) (r : nat) : string :=
  match heap st !! r with
  | Some self => getSubCategory self
  | None => EmptyString
  end.

(** The subcategories of the active settings of [category] among the
    references [l], in order and with repetitions. *)
Definition active_subcategories (conditions : nat → list (state → bool))
  (st : state) (category : string) (l : list nat) : list string :=
  map (subcategory_of st) (List.filter (active_in conditions st category) l).

(** A setting after [setValue(getDefault())] with no index, as [resetProfile]
    leaves a profile setting. *)
Definition reset_setting (sel : Z) (self : setting) : setting :=
  fst (setValue sel self (PyUnicode (getDefault self)) None).




(** The pairs [getPreferencesString] collects over the references [l]:
    preferences are read at index 0. *)
Definition expected_preference_pairs (st : state) (l : list nat)
  : list string :=
  flat_map (fun r =>
              match heap st !! r with
              | Some self =>
                  if isPreference self then
                    match getValue 0 self (Some 0) with
                    | Ok v => [getName self +:+ str1 EQ +:+ encode_utf8 v]
                    | Raise _ => []
                    end
                  else []
              | None => []
              end) l.

(** The text of a pair of the compact strings. *)
Definition pair_text (kv : string * string) : string :=
  fst kv +:+ str1 EQ +:+ snd kv.


(** * Properties *)

(** ** Reading and writing one setting *)

Lemma pad_values_spec (fuel : nat) (index : Z) (d : ustring)
  (values : list ustring) :
  fuel = Z.to_nat (index + 1 - Z.of_nat (length values)) →
  pad_values fuel index d values = values ++ replicate fuel d.
Proof.
  revert values. induction fuel as [|fuel IH]; intros values Hfuel; simpl.
  - by rewrite app_nil_r.
  - destruct (Z.leb_spec (Z.of_nat (length values)) index) as [Hle|Hgt]; [|lia].
    rewrite IH.
    + by rewrite <- app_assoc.
    + rewrite length_app. simpl. lia.
Qed.

(** The fuel [setValue] gives the loop is enough: on the list it leaves, the
    loop condition [index >= len(self._values)] is false. *)
Lemma pad_values_exit (index : Z) (d : ustring) (values : list ustring) :
  let fuel := Z.to_nat (index + 1 - Z.of_nat (length values)) in
  (Z.of_nat (length (pad_values fuel index d values)) <=? index) = false.
Proof.
  intros fuel. rewrite (pad_values_spec fuel) by reflexivity.
  rewrite length_app, length_replicate. subst fuel. apply Z.leb_gt. lia.
Qed.

Lemma list_getitem_nonneg {A} (l : list A) (i : Z) (x : A) :
  0 <= i → l !! Z.to_nat i = Some x → list_getitem l i = Ok x.
Proof.
  intros Hi Hx. unfold list_getitem.
  apply lookup_lt_Some in Hx as Hlt.
  destruct (Z.ltb_spec i 0) as [?|_]; [lia|].
  destruct (Z.ltb_spec i 0) as [?|_]; [lia|].
  destruct (Z.leb_spec (Z.of_nat (length l)) i) as [?|_]; [lia|].
  simpl. by rewrite Hx.
Qed.

Lemma list_setitem_nonneg {A} (l : list A) (i : Z) (x : A) :
  0 <= i < Z.of_nat (length l) →
  list_setitem l i x = Ok (<[Z.to_nat i := x]> l).
Proof.
  intros Hi. unfold list_setitem.
  destruct (Z.ltb_spec i 0) as [?|_]; [lia|].
  destruct (Z.ltb_spec i 0) as [?|_]; [lia|].
  destruct (Z.leb_spec (Z.of_nat (length l)) i) as [?|_]; [lia|].
  reflexivity.
Qed.

(** What [setValue] leaves behind for an explicit index [0 <= index], when
    [unicode(value)] is [u]: the old values, the padding, and [u] at
    [index]. *)
Lemma setValue_nonneg (sel : Z) (self : setting) (value : pyvalue)
  (index : Z) (u : ustring) :
  0 <= index → unicode value = Ok u →
  setValue sel self value (Some index) =
    (with_values self
       (<[Z.to_nat index := u]>
          (_values self
           ++ replicate (Z.to_nat (index + 1 - Z.of_nat (length (_values self))))
                        (_default self))),
     Ok tt).
Proof.
  intros Hi Hu. unfold setValue. rewrite Hu.
  rewrite (pad_values_spec _ index) by reflexivity.
  rewrite list_setitem_nonneg; [reflexivity|].
  rewrite length_app, length_replicate. lia.
Qed.

(** When [unicode(value)] raises, [setValue] raises the same exception after
    the padding has been done. *)
Lemma setValue_unicode_raises (sel : Z) (self : setting) (value : pyvalue)
  (index : Z) (e : exn) :
  unicode value = Raise e →
  setValue sel self value (Some index) =
    (with_values self
       (_values self
        ++ replicate (Z.to_nat (index + 1 - Z.of_nat (length (_values self))))
                     (_default self)),
     Raise e).
Proof.
  intros Hu. unfold setValue. rewrite Hu.
  by rewrite (pad_values_spec _ index) by reflexivity.
Qed.

Lemma getValue_beyond (sel : Z) (self : setting) (j : Z) :
  Z.of_nat (length (_values self)) <= j →
  getValue sel self (Some j) = Ok (_default self).
Proof.
  intros Hj. unfold getValue.
  by destruct (Z.leb_spec (Z.of_nat (length (_values self))) j); [|lia].
Qed.

Lemma getValue_stored (sel : Z) (self : setting) (j : Z) (v : ustring) :
  0 <= j → _values self !! Z.to_nat j = Some v →
  getValue sel self (Some j) = Ok v.
Proof.
  intros Hj Hv. unfold getValue.
  apply lookup_lt_Some in Hv as Hlt.
  destruct (Z.leb_spec (Z.of_nat (length (_values self))) j); [lia|].
  by apply list_getitem_nonneg.
Qed.

(** C2, as amended. For every setting, every value that has a string form
    [u] ([unicode(value)] is [u]) and every index [0 <= index],
    [setValue(value, index)] returns normally and [getValue(index)] then
    returns [u]. *)
Theorem setValue_then_getValue (sel sel' : Z) (self : setting)
  (value : pyvalue) (index : Z) (u : ustring) :
  0 <= index →
  unicode value = Ok u →
  snd (setValue sel self value (Some index)) = Ok tt ∧
  getValue sel' (fst (setValue sel self value (Some index))) (Some index)
    = Ok u.
Proof.
  intros Hi Hu. rewrite (setValue_nonneg sel self value index u Hi Hu).
  split; [reflexivity|]. simpl.
  apply getValue_stored; [done|]. simpl.
  apply list_lookup_insert_eq.
  rewrite length_app, length_replicate. lia.
Qed.

Lemma setValue_then_getValue_witness :
  snd (setValue 0 (mkSetting "step_delay" "step_delay" "" (ustr "800") []
                             IntType "basic" "Step Delay" [])
                (PyInt 250) (Some 2)) = Ok tt ∧
  getValue 0 (fst (setValue 0 (mkSetting "step_delay" "step_delay" ""
                                         (ustr "800") [] IntType "basic"
                                         "Step Delay" [])
                            (PyInt 250) (Some 2))) (Some 2)
    = Ok (ustr "250").
Proof.
  apply (setValue_then_getValue 0 0 _ (PyInt 250) 2 (ustr "250"));
    [lia | reflexivity].
Defined.

(** The claim of C2 as it is worded, for every value, fails for a byte string
    that holds a byte above 127.  The two bytes below are the UTF-8 form of
    [u'\xe9'], the kind of value [setProfileFromString] hands to [setValue]:
    [unicode()] of them raises, so [setValue] raises [UnicodeDecodeError]
    after padding, and [getValue] at the valid index 0 then returns the
    default [800]. *)
Lemma setValue_then_getValue_counterexample :
  let self := mkSetting "step_delay" "step_delay" "" (ustr "800") []
                        IntType "basic" "Step Delay" [] in
  let value := PyStr (encode_utf8 [233%N]) in
  0 <= 0 ∧
  unicode value = Raise UnicodeDecodeError ∧
  snd (setValue 0 self value (Some 0)) = Raise UnicodeDecodeError ∧
  getValue 0 (fst (setValue 0 self value (Some 0))) (Some 0)
    = Ok (ustr "800") ∧
  ¬ ∃ u, unicode value = Ok u ∧
         getValue 0 (fst (setValue 0 self value (Some 0))) (Some 0) = Ok u.
Proof.
  intros self value.
  split; [lia|]. split; [reflexivity|]. split; [reflexivity|].
  split; [reflexivity|].
  intros (u & Hu & _). discriminate Hu.
Qed.

(** The index used when none is passed. *)
Lemma getValueIndex_cases (sel : Z) (self : setting) :
  getValueIndex sel self = (if isPreference self then 0 else sel).
Proof.
  unfold getValueIndex, isProfile, isPreference, isMachineSetting.
  destruct (String.eqb (_category self) "preference") eqn:Hp.
  - apply String.eqb_eq in Hp. by rewrite Hp.
  - by destruct (String.eqb (_category self) "machine").
Qed.

Lemma getValue_None (sel : Z) (self : setting) :
  getValue sel self None = getValue sel self (Some (getValueIndex sel self)).
Proof. reflexivity. Qed.

(** The same through the default index: with no index passed, the write and
    the read both go to [getValueIndex]. *)
Lemma setValue_then_getValue_default_index (sel : Z) (self : setting)
  (value : pyvalue) (u : ustring) :
  0 <= sel → unicode value = Ok u →
  snd (setValue sel self value None) = Ok tt ∧
  getValue sel (fst (setValue sel self value None)) None = Ok u.
Proof.
  intros Hsel Hu.
  assert (Hidx : 0 <= getValueIndex sel self).
  { unfold getValueIndex. destruct (_ || _); lia. }
  change (setValue sel self value None)
    with (setValue sel self value (Some (getValueIndex sel self))).
  rewrite (setValue_nonneg sel self value _ u Hidx Hu).
  split; [reflexivity|]. cbn [fst]. rewrite getValue_None.
  change (getValueIndex sel (with_values self ?v))
    with (getValueIndex sel self).
  apply getValue_stored; [done|]. simpl.
  apply list_lookup_insert_eq.
  rewrite length_app, length_replicate. lia.
Qed.

(** C3. For a setting with [len] stored values and an index [k > len]:
    [setValue(value, k)] leaves the old values, the default at every index of
    [[len, k)], and at [k] the string form of [value]; if [unicode(value)]
    raises, the padding (up to [k]) is already in place, which shows that it
    is done first.  Afterwards [getValue] at a padded index returns the
    default, and on any setting [getValue] at an index at or beyond the
    stored length returns the default. *)
Theorem setValue_pads_with_default (sel : Z) (self : setting)
  (value : pyvalue) (k : Z) :
  Z.of_nat (length (_values self)) < k →
  let len := length (_values self) in
  let self' := fst (setValue sel self value (Some k)) in
  (∀ u, unicode value = Ok u →
     snd (setValue sel self value (Some k)) = Ok tt ∧
     _values self' =
       _values self ++ replicate (Z.to_nat k - len) (_default self) ++ [u]) ∧
  (∀ e, unicode value = Raise e →
     snd (setValue sel self value (Some k)) = Raise e ∧
     _values self' =
       _values self ++ replicate (Z.to_nat k - len + 1) (_default self)) ∧
  (∀ j, Z.of_nat len <= j < k →
     _values self' !! Z.to_nat j = Some (_default self) ∧
     getValue sel self' (Some j) = Ok (_default self)) ∧
  (∀ j, Z.of_nat len <= j →
     getValue sel self (Some j) = Ok (_default self)).
Proof.
  intros Hk len self'.
  assert (Hn : Z.to_nat (k + 1 - Z.of_nat len) = S (Z.to_nat k - len)) by lia.
  assert (Hpad : ∀ u : ustring,
    <[Z.to_nat k := u]>
      (_values self ++ replicate (Z.to_nat (k + 1 - Z.of_nat len))
                                 (_default self))
    = _values self ++ replicate (Z.to_nat k - len) (_default self) ++ [u]).
  { intros u. rewrite Hn, replicate_S_end, app_assoc.
    rewrite insert_app_r_alt; rewrite ?length_app, ?length_replicate;
      [|fold len; lia].
    fold len. replace (Z.to_nat k - (len + (Z.to_nat k - len)))%nat with 0%nat
      by lia.
    simpl. by rewrite <- app_assoc. }
  assert (Hvals : ∀ j, Z.of_nat len <= j < k →
    _values self' !! Z.to_nat j = Some (_default self)).
  { intros j Hj. subst self'.
    destruct (unicode value) as [u|e] eqn:Hu.
    - rewrite (setValue_nonneg sel self value k u) by (done || lia).
      simpl. fold len. rewrite Hpad.
      rewrite lookup_app_r by (fold len; lia).
      rewrite lookup_app_l by (rewrite length_replicate; fold len; lia).
      apply lookup_replicate_2. fold len. lia.
    - rewrite (setValue_unicode_raises sel self value k e Hu). simpl.
      rewrite lookup_app_r by (fold len; lia).
      apply lookup_replicate_2. fold len. lia. }
  split; [|split; [|split]].
  - intros u Hu. subst self'.
    rewrite (setValue_nonneg sel self value k u) by (done || lia).
    split; [reflexivity|]. simpl. apply Hpad.
  - intros e He. subst self'.
    rewrite (setValue_unicode_raises sel self value k e He).
    split; [reflexivity|]. simpl. fold len. by rewrite Hn, Nat.add_1_r.
  - intros j Hj. split; [by apply Hvals|].
    apply getValue_stored; [lia|by apply Hvals].
  - intros j Hj. by apply getValue_beyond.
Qed.

Lemma setValue_pads_with_default_witness :
  let self := mkSetting "machine_name" "machine_name" "" (ustr "")
                        [ustr "Zum"] StrType "machine" "hidden" [] in
  _values (fst (setValue 0 self (PyStr "Ciclop") (Some 3)))
    = [ustr "Zum"; ustr ""; ustr ""; ustr "Ciclop"] ∧
  getValue 0 (fst (setValue 0 self (PyStr "Ciclop") (Some 3))) (Some 2)
    = Ok (ustr "").
Proof.
  intros self.
  assert (Hk : Z.of_nat (length (_values self)) < 3) by (simpl; lia).
  destruct (setValue_pads_with_default 0 self (PyStr "Ciclop") 3 Hk)
    as (Hok & _ & Hpad & _).
  split.
  - exact (proj2 (Hok (ustr "Ciclop") eq_refl)).
  - apply Hpad. simpl. lia.
Defined.

(** [getValue] with an explicit index [0 <= i] always returns a value. *)
Lemma getValue_nonneg_total (sel : Z) (self : setting) (i : Z) :
  0 <= i → ∃ v, getValue sel self (Some i) = Ok v.
Proof.
  intros Hi.
  destruct (Z.le_gt_cases (Z.of_nat (length (_values self))) i) as [Hge|Hlt].
  - eexists. by apply getValue_beyond.
  - destruct (lookup_lt_is_Some_2 (_values self) (Z.to_nat i)) as [v Hv];
      [lia|].
    exists v. by apply getValue_stored.
Qed.

(** C10, as amended. With an explicit index [i < 0] the guard of [getValue]
    does not apply and the list is indexed with [i]: for [-len <= i] the
    result is the stored value at position [len + i], counted from the end,
    and never the default as such; for [i < -len], which is every negative
    index when nothing is stored, the access raises [IndexError]. *)
Theorem getValue_negative_index (sel : Z) (self : setting) (i : Z) :
  i < 0 →
  let len := Z.of_nat (length (_values self)) in
  (_values self = [] → getValue sel self (Some i) = Raise IndexError) ∧
  (i < - len → getValue sel self (Some i) = Raise IndexError) ∧
  (- len <= i →
     ∃ v, _values self !! Z.to_nat (len + i) = Some v ∧
          getValue sel self (Some i) = Ok v).
Proof.
  intros Hi len.
  assert (Hguard : (len <=? i) = false) by (apply Z.leb_gt; lia).
  assert (Hneg : (i <? 0) = true) by (apply Z.ltb_lt; lia).
  assert (Hlow : i < - len → getValue sel self (Some i) = Raise IndexError).
  { intros Hlt. unfold getValue. fold len. rewrite Hguard.
    unfold list_getitem. fold len. rewrite Hneg.
    by destruct (Z.ltb_spec (i + len) 0); [|lia]. }
  split; [|split].
  - intros Hnil. apply Hlow. subst len. rewrite Hnil. simpl. lia.
  - exact Hlow.
  - intros Hge.
    destruct (lookup_lt_is_Some_2 (_values self) (Z.to_nat (len + i)))
      as [v Hv]; [subst len; lia|].
    exists v. split; [done|].
    unfold getValue. fold len. rewrite Hguard.
    unfold list_getitem. fold len. rewrite Hneg.
    destruct (Z.ltb_spec (i + len) 0); [lia|].
    destruct (Z.leb_spec len (i + len)); [lia|]. simpl.
    by rewrite Z.add_comm, Hv.
Qed.

Lemma getValue_negative_index_witness :
  let self := mkSetting "machine_name" "machine_name" "" (ustr "")
                        [ustr "Zum"; ustr "Ciclop"] StrType "machine"
                        "hidden" [] in
  ∃ v, _values self !! Z.to_nat (2 + -1) = Some v ∧
       getValue 0 self (Some (-1)) = Ok v.
Proof.
  intros self.
  assert (Hi : -1 < 0) by lia.
  destruct (getValue_negative_index 0 self (-1) Hi) as (_ & _ & H).
  apply H. simpl. lia.
Defined.

(** The claim of C10 as it is worded fails for a setting with one stored
    value and the index -2: the call raises, it returns no element. *)
Lemma getValue_negative_index_counterexample :
  let self := mkSetting "machine_name" "machine_name" "" (ustr "")
                        [ustr "Zum"] StrType "machine" "hidden" [] in
  _values self ≠ [] ∧ -2 < 0 ∧
  getValue 0 self (Some (-2)) = Raise IndexError ∧
  ¬ ∃ v, getValue 0 self (Some (-2)) = Ok v.
Proof.
  intros self.
  split; [discriminate|]. split; [lia|]. split; [reflexivity|].
  intros [v Hv]. discriminate Hv.
Qed.

(** ** The default index *)

(** C7. The index [getValue] and [setValue] use when none is passed is
    [getValueIndex]: 0 for a preference, the global [_selectedMachineIndex]
    for every other setting, and every other setting is a machine setting or
    a profile setting. *)
Theorem getValueIndex_by_category (sel : Z) (self : setting) :
  getValueIndex sel self = (if isPreference self then 0 else sel) ∧
  (isPreference self = false ↔
     isMachineSetting self = true ∨ isProfile self = true) ∧
  getValue sel self None = getValue sel self (Some (getValueIndex sel self)) ∧
  (∀ value, setValue sel self value None
            = setValue sel self value (Some (getValueIndex sel self))).
Proof.
  assert (Hcat : isPreference self = true → isMachineSetting self = false).
  { unfold isPreference, isMachineSetting. intros H.
    apply String.eqb_eq in H. by rewrite H. }
  split; [|split; [|split]].
  - unfold getValueIndex, isProfile.
    destruct (isPreference self) eqn:Hp.
    + by rewrite Hcat.
    + by destruct (isMachineSetting self).
  - unfold isProfile. destruct (isPreference self) eqn:Hp.
    + rewrite Hcat by done. simpl. split; [done|]. by intros [?|?].
    + destruct (isMachineSetting self); simpl; split; auto.
  - reflexivity.
  - reflexivity.
Qed.

(** ** setRange *)

Lemma setRange_no_validator (self : setting) (lo hi : pyvalue) :
  _validators self = [] → setRange self lo hi = (self, RetNone).
Proof. intros H. unfold setRange. by rewrite H. Qed.

(** With a validator attached, [setRange] sets the bounds of the first one,
    leaves the others and every other attribute alone, and returns [self]. *)
Lemma setRange_first_validator (self : setting) (lo hi : pyvalue)
  (v : validator) (vs : list validator) :
  _validators self = v :: vs →
  setRange self lo hi
    = (with_validators self (mkValidator (kind v) lo hi :: vs), RetSelf).
Proof. intros H. unfold setRange. by rewrite H. Qed.

(** C5, at the failing input. On the [machine_name] setting of the module, a
    [str] setting and so one without validator, [setRange(0, 1)] leaves the
    object alone and returns [None], not the setting. *)
Theorem setRange_machine_name_returns_None :
  ∃ self, heap initial_state !! 2%nat = Some self ∧
          _name self = "machine_name" ∧
          setRange self (PyInt 0) (PyInt 1) = (self, RetNone).
Proof. eexists. repeat split. Qed.

(** ** Registration *)

(** C9. Two constructions with the same name, one after the other, from any
    state: both return, the list gains both objects (it is one element longer
    after the second than after the first), the objects are distinct and
    both in the heap, and the dictionary maps the name to the later one. *)
Theorem duplicate_name_registration (st : state) (name : string)
  (default1 default2 : pyvalue) (type1 type2 : pytype)
  (category1 subcategory1 category2 subcategory2 : string)
  (d1 d2 : ustring) :
  unicode default1 = Ok d1 →
  unicode default2 = Ok d2 →
  let r1 := length (heap st) in
  let r2 := S (length (heap st)) in
  let st1 :=
    fst (setting_init name default1 type1 category1 subcategory1 st) in
  let st2 :=
    fst (setting_init name default2 type2 category2 subcategory2 st1) in
  snd (setting_init name default1 type1 category1 subcategory1 st) = Ok r1 ∧
  snd (setting_init name default2 type2 category2 subcategory2 st1) = Ok r2 ∧
  settingsList st1 = settingsList st ++ [r1] ∧
  settingsList st2 = settingsList st ++ [r1; r2] ∧
  length (settingsList st2) = S (length (settingsList st1)) ∧
  settingsDictionary st1 !! name = Some r1 ∧
  settingsDictionary st2 !! name = Some r2 ∧
  (∀ other, other ≠ name →
     settingsDictionary st2 !! other = settingsDictionary st !! other) ∧
  heap st2 !! r1 =
    Some (mkSetting name name "" d1 [] type1 category1 subcategory1
                    (attached_validators type1)) ∧
  heap st2 !! r2 =
    Some (mkSetting name name "" d2 [] type2 category2 subcategory2
                    (attached_validators type2)).
Proof.
  intros H1 H2 r1 r2 st1 st2. subst st1 st2.
  unfold setting_init, bind, lift. rewrite H1. simpl. rewrite H2. simpl.
  subst r1 r2. rewrite !length_app. simpl. rewrite !Nat.add_1_r.
  repeat split.
  - by rewrite <- app_assoc.
  - apply lookup_insert_eq.
  - apply lookup_insert_eq.
  - intros other Hne. by rewrite !lookup_insert_ne.
  - rewrite lookup_app_l by (rewrite length_app; simpl; lia).
    by rewrite lookup_app_r, Nat.sub_diag.
  - rewrite lookup_app_r by (rewrite length_app; simpl; lia).
    rewrite length_app. simpl.
    by replace (S (length (heap st)) - (length (heap st) + 1))%nat
      with 0%nat by lia.
Qed.

Lemma duplicate_name_registration_witness :
  let st1 := fst (setting_init "step_delay" (PyInt 5) IntType "basic"
                               "Step Delay" initial_state) in
  let st2 := fst (setting_init "step_delay" (PyStr "slow") StrType
                               "preference" "hidden" st1) in
  settingsList st2 = settingsList initial_state ++ [4%nat; 5%nat] ∧
  settingsDictionary st2 !! "step_delay" = Some 5%nat.
Proof.
  intros st1 st2.
  destruct (duplicate_name_registration initial_state "step_delay"
              (PyInt 5) (PyStr "slow") IntType StrType
              "basic" "Step Delay" "preference" "hidden"
              (ustr "5") (ustr "slow") eq_refl eq_refl)
    as (_ & _ & _ & Hl & _ & _ & Hd & _).
  split; [exact Hl | exact Hd].
Defined.

(** ** Splitting and joining byte strings *)

Lemma str_partition_absent (sep : ascii) (s : string) :
  str_contains sep s = false → str_partition sep s = None.
Proof.
  induction s as [|c s IH]; simpl; [done|].
  intros H. apply orb_false_iff in H as [Hc Hs].
  by rewrite Hc, IH.
Qed.

Lemma str_split1_absent (sep : ascii) (s : string) :
  str_contains sep s = false → str_split1 sep s = [s].
Proof. intros H. unfold str_split1. by rewrite str_partition_absent. Qed.

(** ** A profile string without block separator *)

(** C4. When the input decodes and decompresses to a payload without the
    byte 0x0C, [setProfileFromString] raises [ValueError] (the two-name
    unpacking of a one-element list) and leaves the whole state, and so every
    setting, as it was. *)
Theorem setProfileFromString_no_block_separator {codecs : Codecs}
  (st : state) (options decoded payload : string) :
  b64decode options = Ok decoded →
  zlib_decompress decoded = Ok payload →
  str_contains FF payload = false →
  setProfileFromString options st = (st, Raise ValueError).
Proof.
  intros Hb Hz Hff. unfold setProfileFromString, bind, lift.
  by rewrite Hb, Hz, (str_split1_absent FF payload Hff).
Qed.

Lemma setProfileFromString_no_block_separator_witness :
  @setProfileFromString plain_codecs "step_delay=3" initial_state
    = (initial_state, Raise ValueError).
Proof.
  apply (@setProfileFromString_no_block_separator plain_codecs initial_state
           "step_delay=3" "step_delay=3" "step_delay=3");
    reflexivity.
Defined.

(** ** Well-formed states *)

Lemma wf_list (st : state) :
  wf st → ∀ r, r ∈ settingsList st → (r < length (heap st))%nat.
Proof. intros [H _]. by apply Forall_forall. Qed.

Lemma wf_dict (st : state) :
  wf st →
  ∀ k r, settingsDictionary st !! k = Some r → (r < length (heap st))%nat.
Proof. intros [_ H] k r Hk. exact (H k r Hk). Qed.

Lemma empty_state_wf (fs : gmap string string) (ro : list string) :
  wf (empty_state fs ro).
Proof. split; [apply Forall_nil_2 | apply map_Forall_empty]. Qed.

(** Constructing a setting and storing a value keep a state well formed, so
    every state the module can reach is. *)
Lemma setting_init_wf (st : state) (name : string) (default : pyvalue)
  (type : pytype) (category subcategory : string) :
  wf st → wf (fst (setting_init name default type category subcategory st)).
Proof.
  intros [Hl Hd]. unfold setting_init, bind, lift.
  destruct (unicode default) as [d|e]; [|done]. simpl.
  split; simpl; rewrite length_app; simpl.
  - apply Forall_app. split.
    + eapply Forall_impl; [exact Hl|]. simpl. lia.
    + apply Forall_singleton. lia.
  - apply map_Forall_insert_2; [lia|].
    eapply map_Forall_impl; [exact Hd|]. simpl. lia.
Qed.

Lemma call_setValue_wf (st : state) (r : nat) (value : pyvalue)
  (index : option Z) :
  wf st → wf (fst (call_setValue r value index st)).
Proof.
  intros [Hl Hd]. unfold call_setValue, bind, deref.
  destruct (heap st !! r) as [self|]; [|done].
  destruct (setValue _ self value index) as [self' res]. simpl.
  split; simpl; by rewrite length_insert.
Qed.

Lemma initial_state_wf : wf initial_state.
Proof. split; compute_done. Qed.

(** ** saveProfile for all machines *)

Lemma for_fold_raises_at {A S} (l1 l2 : list A) (x : A) (acc : S)
  (body : A → S → M S) (e : exn) (st : state) :
  (∀ y, y ∈ l1 → body y acc st = (st, Ok acc)) →
  body x acc st = (st, Raise e) →
  for_fold (l1 ++ x :: l2) acc body st = (st, Raise e).
Proof.
  intros Hskip Hx. induction l1 as [|y l1 IH]; simpl.
  - unfold bind. by rewrite Hx.
  - unfold bind. rewrite Hskip by apply list_elem_of_here.
    apply IH. intros z Hz. apply Hskip. by apply list_elem_of_further.
Qed.

(** In a well-formed state whose list holds a setting that is neither a
    preference nor a machine setting, [saveProfile(filename, True)] raises
    [NameError] at the first such setting, before any file is opened. *)
Lemma saveProfile_allMachines_raises (st : state) (filename : string) :
  wf st →
  (∃ r self, r ∈ settingsList st ∧ heap st !! r = Some self ∧
             isPreference self || isMachineSetting self = false) →
  saveProfile filename true st = (st, Raise NameError).
Proof.
  intros Hwf0 Hex. pose proof (wf_list st Hwf0) as Hwf. clear Hwf0.
  assert (Hsplit : ∃ l1 r l2 self, settingsList st = l1 ++ r :: l2 ∧
            heap st !! r = Some self ∧
            isPreference self || isMachineSetting self = false ∧
            ∀ y, y ∈ l1 → ∃ s, heap st !! y = Some s ∧
                               isPreference s || isMachineSetting s = true).
  { revert Hwf Hex. generalize (settingsList st) as l.
    induction l as [|y l IH]; intros Hwf (r & self & Hin & Hr & Hcat).
    - by apply not_elem_of_nil in Hin.
    - destruct (lookup_lt_is_Some_2 (heap st) y) as [s Hs];
        [apply Hwf, list_elem_of_here|].
      destruct (isPreference s || isMachineSetting s) eqn:Hs_cat.
      + destruct IH as (l1 & r' & l2 & self' & Hl & Hr' & Hcat' & Hl1).
        * intros z Hz. by apply Hwf, list_elem_of_further.
        * apply elem_of_cons in Hin as [->|Hin]; [congruence|eauto].
        * exists (y :: l1), r', l2, self'. rewrite Hl. repeat split; try done.
          intros z Hz. apply elem_of_cons in Hz as [->|Hz]; eauto.
      + exists [], y, l, s. repeat split; try done.
        intros z Hz. by apply not_elem_of_nil in Hz. }
  destruct Hsplit as (l1 & r & l2 & self & Hl & Hr & Hcat & Hl1).
  unfold saveProfile, saveProfile_with, bind at 1, bind at 1, gets.
  rewrite Hl.
  rewrite (for_fold_raises_at l1 l2 r new_parser _ NameError st); [done| |].
  - intros y Hy. destruct (Hl1 y Hy) as (s & Hs & Hs_cat).
    unfold bind, deref. by rewrite Hs, Hs_cat.
  - unfold bind, deref. by rewrite Hr, Hcat.
Qed.

(** C6, at the failing input. On the registry the module itself declares,
    [saveProfile(filename, True)] raises [NameError] ([getMachineCount] is
    not a name of the module), writes no section and opens no file. *)
Theorem saveProfile_allMachines_fails :
  saveProfile "current_profile.ini" true initial_state
    = (initial_state, Raise NameError).
Proof. vm_compute. reflexivity. Qed.

(** ** savePreferences *)

Lemma parser_set_last (p0 : ConfigParser) (section option value : string)
  (opts : list (string * string)) :
  has_section p0 section = false →
  parser_set (p0 ++ [(section, opts)]) section option value
    = Ok (p0 ++ [(section, odict_set opts (optionxform option) value)]).
Proof.
  induction p0 as [|[name o] p0 IH]; simpl; intros Hno.
  - by rewrite String.eqb_refl.
  - apply orb_false_iff in Hno as [Hname Hrest].
    by rewrite Hname, IH.
Qed.

Lemma has_section_names (p : ConfigParser) (section : string) :
  section ∉ map fst p → has_section p section = false.
Proof.
  induction p as [|[name o] p IH]; simpl; [done|].
  intros Hnot. apply not_elem_of_cons in Hnot as [Hne Hnot].
  apply orb_false_iff. split; [|by apply IH].
  apply String.eqb_neq. congruence.
Qed.

(** One pass of the shape both loops of [savePreferences] have: it leaves the
    state alone and fills the last section of the parser. *)
Lemma store_pass_ok (st : state) (select : setting → bool) (index : option Z)
  (section : string) (p0 : ConfigParser) (l : list nat) :
  (∀ r, r ∈ l → (r < length (heap st))%nat) →
  (∀ self, select self = true →
     ∃ v, getValue (_selectedMachineIndex st) self index = Ok v) →
  has_section p0 section = false →
  ∀ opts,
  for_fold l (p0 ++ [(section, opts)])
    (fun set parser =>
       do self <- deref set;
       if select self then
         do v <- call_getValue set index;
         lift (parser_set parser section (getName self) (encode_utf8 v))
       else ret parser) st
  = (st, Ok (p0 ++ [(section, foldl (store_option st select index) opts l)])).
Proof.
  intros Hrefs Htotal Hno. induction l as [|r l IH]; intros opts; simpl.
  - reflexivity.
  - destruct (lookup_lt_is_Some_2 (heap st) r) as [self Hself];
      [apply Hrefs, list_elem_of_here|].
    unfold bind at 1, bind at 1, deref. rewrite Hself.
    unfold store_option at 2. rewrite Hself.
    destruct (select self) eqn:Hsel.
    + destruct (Htotal self Hsel) as [v Hv].
      unfold call_getValue, bind, deref, lift. rewrite Hself, Hv.
      rewrite parser_set_last by done.
      rewrite IH by (intros z Hz; by apply Hrefs, list_elem_of_further).
      reflexivity.
    + unfold ret.
      rewrite IH by (intros z Hz; by apply Hrefs, list_elem_of_further).
      reflexivity.
Qed.

Lemma first_empty_le (values : list ustring) :
  (first_empty values <= length values)%nat.
Proof.
  induction values as [|[|c v] values IH]; simpl; lia.
Qed.

Lemma first_empty_before (values : list ustring) (j : nat) :
  (j < first_empty values)%nat →
  ∃ v, values !! j = Some v ∧ v ≠ [].
Proof.
  revert j. induction values as [|[|c v] values IH]; simpl; intros j Hj;
    [lia|lia|].
  destruct j as [|j]; simpl.
  - by exists (c :: v).
  - apply IH. lia.
Qed.

Lemma first_empty_at (values : list ustring) :
  values !! first_empty values = Some [] ∨
  first_empty values = length values.
Proof.
  induction values as [|[|c v] values IH]; simpl; [by right|by left|].
  destruct IH as [IH|IH]; [by left|right; by rewrite IH].
Qed.

(** With the default [''], [first_empty] is the first index at which
    [getValue] returns the empty string. *)
Lemma getValue_first_empty (sel : Z) (self : setting) :
  _default self = [] →
  getValue sel self (Some (Z.of_nat (first_empty (_values self)))) = Ok [] ∧
  ∀ j, (j < first_empty (_values self))%nat →
       ∃ v, getValue sel self (Some (Z.of_nat j)) = Ok v ∧ v ≠ [].
Proof.
  intros Hdef. split.
  - destruct (first_empty_at (_values self)) as [Hat|Hlen].
    + apply getValue_stored; [lia|]. by rewrite Nat2Z.id.
    + rewrite <- Hdef. apply getValue_beyond. lia.
  - intros j Hj.
    destruct (first_empty_before _ j Hj) as (v & Hv & Hne).
    exists v. split; [|done].
    apply getValue_stored; [lia|]. by rewrite Nat2Z.id.
Qed.

Lemma machine_section_name_inj (a b : nat) :
  machine_section_name a = machine_section_name b → a = b.
Proof.
  unfold machine_section_name. intros H. simplify_eq/=.
  apply Nat2Z.inj. by apply (inj pretty).
Qed.

Lemma getMachineSetting_found (st : state) (name : string) (r : nat)
  (self : setting) (index : option Z) :
  settingsDictionary st !! name = Some r →
  heap st !! r = Some self →
  isMachineSetting self = true →
  getMachineSetting name index st =
    (st, match getValue (_selectedMachineIndex st) self index with
         | Ok v => Ok (PyUnicode v)
         | Raise e => Raise e
         end).
Proof.
  intros Hd Hr Hm.
  unfold getMachineSetting, bind at 1, gets. rewrite Hd.
  unfold bind at 1, bind at 1, deref. rewrite Hr, Hm.
  unfold call_getValue, bind, deref. rewrite Hr.
  by destruct (getValue _ self index).
Qed.

Lemma machine_section_ok (st : state) (n : nat) (p : ConfigParser) :
  (∀ r, r ∈ settingsList st → (r < length (heap st))%nat) →
  machine_section_name n ∉ map fst p →
  machine_section (Z.of_nat n) p st =
    (st, Ok (p ++ [(machine_section_name n,
                    section_options st isMachineSetting
                                    (Some (Z.of_nat n)))])).
Proof.
  intros Hrefs Hnew.
  unfold machine_section, bind at 1, lift, add_section.
  fold (machine_section_name n).
  replace (String.eqb (str_lower (machine_section_name n)) "default")
    with false by reflexivity.
  rewrite has_section_names by done.
  unfold bind at 1, gets.
  apply (store_pass_ok st isMachineSetting (Some (Z.of_nat n))
           (machine_section_name n) p (settingsList st) Hrefs).
  - intros self _. apply getValue_nonneg_total. lia.
  - by apply has_section_names.
Qed.

(** The loop, started at [n] with [k - n] machine names still ahead. *)
Lemma machine_sections_ok (st : state) (r : nat) (self : setting) (k : nat) :
  (∀ r, r ∈ settingsList st → (r < length (heap st))%nat) →
  settingsDictionary st !! "machine_name" = Some r →
  heap st !! r = Some self →
  isMachineSetting self = true →
  getValue (_selectedMachineIndex st) self (Some (Z.of_nat k)) = Ok [] →
  (∀ j, (j < k)%nat →
     ∃ v, getValue (_selectedMachineIndex st) self (Some (Z.of_nat j)) = Ok v
          ∧ v ≠ []) →
  ∀ (todo n fuel : nat) (p : ConfigParser),
    (n + todo = k)%nat → (todo < fuel)%nat →
    (∀ m, machine_section_name m ∈ map fst p → (m < n)%nat) →
    machine_sections fuel (Z.of_nat n) p st =
      Some (st, Ok (p ++ map (fun m =>
                           (machine_section_name m,
                            section_options st isMachineSetting
                                            (Some (Z.of_nat m))))
                         (seq n todo))).
Proof.
  intros Hrefs Hd Hr Hm Hk Hbefore.
  induction todo as [|todo IH]; intros n fuel p Hn Hfuel Hnames;
    (destruct fuel as [|fuel]; [lia|]); simpl.
  - rewrite (getMachineSetting_found st _ r self) by done.
    replace n with k by lia. rewrite Hk. simpl. by rewrite app_nil_r.
  - rewrite (getMachineSetting_found st _ r self) by done.
    destruct (Hbefore n) as (v & Hv & Hne); [lia|]. rewrite Hv.
    replace (py_is_empty (PyUnicode v)) with false by (by destruct v).
    rewrite machine_section_ok; [|done|].
    + replace (Z.of_nat n + 1) with (Z.of_nat (S n)) by lia.
      rewrite IH; [|lia|lia|].
      * by rewrite <- app_assoc.
      * intros m Hin. rewrite map_app in Hin. apply elem_of_app in Hin.
        destruct Hin as [Hin|Hin]; [apply Hnames in Hin; lia|].
        simpl in Hin. apply list_elem_of_singleton in Hin.
        apply machine_section_name_inj in Hin. lia.
    + intros Hin. apply Hnames in Hin. lia.
Qed.

Lemma preference_section_ok (st : state) :
  (∀ r, r ∈ settingsList st → (r < length (heap st))%nat) →
  (do parser <- lift (add_section new_parser "preference");
   preference_section parser) st
  = (st, Ok [("preference", section_options st isPreference None)]).
Proof.
  intros Hrefs. unfold bind at 1, lift. simpl.
  unfold preference_section, bind at 1, gets.
  apply (store_pass_ok st isPreference None "preference" []
           (settingsList st) Hrefs).
  - intros self Hpref.
    rewrite getValue_None, getValueIndex_cases, Hpref.
    apply getValue_nonneg_total. lia.
  - reflexivity.
Qed.

(** [write_file] either stores the rendered parser or raises [IOError]. *)
Lemma write_file_outcome (filename : string) (p : ConfigParser) (st : state) :
  write_file filename p st = (st, Raise IOError) ∨
  write_file filename p st
    = (with_files st (<[filename := render p]> (files st)), Ok tt).
Proof. unfold write_file. destruct (existsb _ _); auto. Qed.

(** C8. Let the dictionary map [machine_name] to a machine setting with the
    default [''], as the module declares it, and let [k] be the first index
    at which its value is the empty string.  Then [k] is at most the number
    of stored values, the loop of [savePreferences] ends (any fuel above [k]
    is enough), no setting changes, and the parser handed to [write] holds
    the section [preference] and then exactly [machine_0] to
    [machine_(k-1)], each with the machine settings' values at its index. *)
Theorem savePreferences_machine_sections (st : state) (filename : string)
  (r : nat) (self : setting) :
  wf st →
  settingsDictionary st !! "machine_name" = Some r →
  heap st !! r = Some self →
  isMachineSetting self = true →
  _default self = [] →
  let sel := _selectedMachineIndex st in
  let k := first_empty (_values self) in
  (k <= length (_values self))%nat ∧
  getValue sel self (Some (Z.of_nat k)) = Ok [] ∧
  (∀ j, (j < k)%nat →
     ∃ v, getValue sel self (Some (Z.of_nat j)) = Ok v ∧ v ≠ []) ∧
  ∀ fuel, (k < fuel)%nat →
    savePreferences_parser fuel st = Some (st, Ok (preferences_parser st k)) ∧
    map fst (preferences_parser st k)
      = "preference" :: map machine_section_name (seq 0 k) ∧
    savePreferences fuel filename st
      = Some (write_file filename (preferences_parser st k) st).
Proof.
  intros Hwf Hd Hr Hm Hdef sel k. pose proof (wf_list st Hwf) as Hrefs.
  destruct (getValue_first_empty sel self Hdef) as [Hk Hbefore].
  split; [apply first_empty_le|]. split; [done|]. split; [done|].
  intros fuel Hfuel.
  assert (Hparser : savePreferences_parser fuel st
                    = Some (st, Ok (preferences_parser st k))).
  { unfold savePreferences_parser. rewrite preference_section_ok by done.
    rewrite (machine_sections_ok st r self k Hrefs Hd Hr Hm Hk Hbefore
               k 0%nat fuel); [done|lia|done|].
    intros m Hin. simpl in Hin. apply list_elem_of_singleton in Hin.
    discriminate Hin. }
  split; [done|]. split.
  - unfold preferences_parser. simpl. f_equal.
    rewrite map_map. reflexivity.
  - unfold savePreferences. by rewrite Hparser.
Qed.

Lemma two_machines_state_wf : wf two_machines_state.
Proof. split; compute_done. Qed.

Lemma savePreferences_machine_sections_witness :
  savePreferences_parser 3 two_machines_state
    = Some (two_machines_state, Ok (preferences_parser two_machines_state 2)) ∧
  map fst (preferences_parser two_machines_state 2)
    = ["preference"; "machine_0"; "machine_1"].
Proof.
  destruct (savePreferences_machine_sections two_machines_state
              "preferences.ini" 2%nat
              (with_values machine_name_setting [ustr "Zum"; ustr "Ciclop"])
              two_machines_state_wf eq_refl eq_refl eq_refl eq_refl)
    as (_ & _ & _ & Hrun).
  destruct (Hrun 3%nat) as (Hparser & Hnames & _); [simpl; lia|].
  split; [exact Hparser | exact Hnames].
Defined.

(** ** More on splitting and joining *)

Lemma str_contains_app (c : ascii) (a b : string) :
  str_contains c (a +:+ b) = str_contains c a || str_contains c b.
Proof.
  induction a as [|x a IH]; simpl; [done|]. by rewrite IH, orb_assoc.
Qed.

Lemma str_partition_at (sep : ascii) (a b : string) :
  str_contains sep a = false →
  str_partition sep (a +:+ String sep b) = Some (a, b).
Proof.
  induction a as [|x a IH]; simpl; intros H.
  - by rewrite Ascii.eqb_refl.
  - apply orb_false_iff in H as [Hx Ha]. by rewrite Hx, IH.
Qed.

Lemma str_split_absent (sep : ascii) (s : string) :
  str_contains sep s = false → str_split sep s = [s].
Proof.
  induction s as [|x s IH]; simpl; intros H; [done|].
  apply orb_false_iff in H as [Hx Hs]. by rewrite Hx, IH.
Qed.

Lemma str_split_at (sep : ascii) (a rest : string) :
  str_contains sep a = false →
  str_split sep (a +:+ String sep rest) = a :: str_split sep rest.
Proof.
  induction a as [|x a IH]; simpl; intros H.
  - by rewrite Ascii.eqb_refl.
  - apply orb_false_iff in H as [Hx Ha]. by rewrite Hx, IH.
Qed.

(** Splitting a join gives the list back, when no element holds the
    separator and the list is not empty. *)
Lemma str_split_join (sep : ascii) (l : list string) :
  l ≠ [] →
  Forall (fun x => str_contains sep x = false) l →
  str_split sep (str_join sep l) = l.
Proof.
  induction l as [|x [|y l] IH]; intros Hne Hall; [done| |].
  - simpl. apply str_split_absent. by inversion Hall.
  - inversion Hall as [|? ? Hx Hrest]; subst.
    change (str_join sep (x :: y :: l))
      with (x +:+ String sep (str_join sep (y :: l))).
    rewrite str_split_at by done. f_equal. by apply IH.
Qed.

Lemma str_contains_join (c sep : ascii) (l : list string) :
  Ascii.eqb sep c = false →
  Forall (fun x => str_contains c x = false) l →
  str_contains c (str_join sep l) = false.
Proof.
  intros Hsep. induction l as [|x [|y l] IH]; intros Hall; [done| |].
  - by inversion Hall.
  - inversion Hall as [|? ? Hx Hrest]; subst.
    change (str_join sep (x :: y :: l))
      with (x +:+ String sep (str_join sep (y :: l))).
    rewrite str_contains_app, Hx. simpl. rewrite Hsep. by apply IH.
Qed.

(** ** UTF-8 and ASCII on plain values *)

Lemma encode_utf8_plain (v : ustring) :
  plain_value v → encode_utf8 v = string_of_list_ascii (map ascii_of_N v).
Proof.
  unfold encode_utf8. intros Hv. f_equal.
  induction Hv as [|c v (Hc & _ & _) _ IH]; simpl; [done|].
  rewrite IH. unfold utf8_encode_char.
  by destruct (N.ltb_spec c 128); [|lia].
Qed.

Lemma ascii_decode_encode_utf8 (v : ustring) :
  plain_value v → ascii_decode (encode_utf8 v) = Ok v.
Proof.
  intros Hv. rewrite encode_utf8_plain by done.
  unfold ascii_decode, ustr. rewrite list_ascii_of_string_of_list_ascii.
  assert (Hall : forallb is_ascii_byte (map ascii_of_N v) = true ∧
                 map N_of_ascii (map ascii_of_N v) = v).
  { induction Hv as [|c v (Hc & _ & _) _ [IH1 IH2]]; simpl; [done|].
    rewrite IH1, IH2. unfold is_ascii_byte.
    rewrite N_ascii_embedding by lia.
    by destruct (N.ltb_spec c 128); [|lia]. }
  destruct Hall as [-> ->]. reflexivity.
Qed.

Lemma encode_utf8_no_separator (sep : ascii) (v : ustring) :
  plain_value v → sep = BS ∨ sep = FF →
  str_contains sep (encode_utf8 v) = false.
Proof.
  intros Hv Hsep. rewrite encode_utf8_plain by done.
  assert (Hchar : ∀ c, c ∈ v → Ascii.eqb (ascii_of_N c) sep = false).
  { intros c Hc. apply Ascii.eqb_neq. intros Heq.
    apply (f_equal N_of_ascii) in Heq.
    unfold plain_value in Hv. rewrite Forall_forall in Hv.
    destruct (Hv c Hc) as (H128 & H8 & H12).
    rewrite N_ascii_embedding in Heq by lia.
    destruct Hsep as [->| ->]; [by apply H8 | by apply H12]. }
  clear Hv Hsep. induction v as [|c v IH]; simpl; [done|].
  rewrite Hchar by apply list_elem_of_here.
  apply IH. intros d Hd. apply Hchar. by apply list_elem_of_further.
Qed.

(** ** The profile string: encoding *)

Lemma for_each_app {A} (l1 l2 : list A) (body : A → M unit) (st : state) :
  for_each (l1 ++ l2) body st =
    (do _ <- for_each l1 body; for_each l2 body) st.
Proof.
  revert st. induction l1 as [|x l1 IH]; intros st; simpl; [done|].
  unfold bind. destruct (body x st) as [st1 [[]|e]]; [|done].
  rewrite IH. reflexivity.
Qed.

Lemma getValue_None_nonneg_total (sel : Z) (self : setting) :
  0 <= sel → ∃ v, getValue sel self None = Ok v.
Proof.
  intros Hsel.
  rewrite getValue_None. apply getValue_nonneg_total.
  rewrite getValueIndex_cases. destruct (isPreference self); lia.
Qed.

(** The loop of [getProfileString] reads every setting and changes none. *)
Lemma profile_pairs_loop (st : state) (l : list nat) :
  0 <= _selectedMachineIndex st →
  (∀ r, r ∈ l → (r < length (heap st))%nat) →
  ∀ acc,
  for_fold l acc
    (fun set p =>
       do self <- deref set;
       if isProfile self then
         do v <- call_getValue set None;
         ret (p ++ [getName self +:+ str1 EQ +:+ encode_utf8 v])
       else ret p) st
  = (st, Ok (acc ++ expected_pairs st l)).
Proof.
  intros Hsel Hrefs. induction l as [|r l IH]; intros acc; simpl.
  - by rewrite app_nil_r.
  - destruct (lookup_lt_is_Some_2 (heap st) r) as [self Hself];
      [apply Hrefs, list_elem_of_here|].
    unfold bind at 1, bind at 1, deref. rewrite Hself.
    destruct (isProfile self) eqn:Hprof.
    + destruct (getValue_None_nonneg_total _ self Hsel) as [v Hv].
      unfold call_getValue, bind, deref, ret. rewrite Hself, Hv.
      rewrite IH by (intros z Hz; by apply Hrefs, list_elem_of_further).
      by rewrite <- app_assoc.
    + unfold ret.
      rewrite IH by (intros z Hz; by apply Hrefs, list_elem_of_further).
      reflexivity.
Qed.

Lemma getProfileString_ok {codecs : Codecs} (st : state) :
  wf st → 0 <= _selectedMachineIndex st →
  getProfileString st =
    (st, Ok (b64encode
               (zlib_compress
                  (str_join BS (expected_pairs st (settingsList st))
                   +:+ str1 FF) 9))).
Proof.
  intros Hwf Hsel.
  unfold getProfileString, profile_pairs, bind at 1, bind at 1, gets.
  rewrite profile_pairs_loop by (done || by apply wf_list).
  reflexivity.
Qed.

(** ** The registry and its invariant *)

Lemma setValue_static (sel : Z) (self : setting) (value : pyvalue)
  (index : option Z) :
  _name (fst (setValue sel self value index)) = _name self ∧
  _category (fst (setValue sel self value index)) = _category self.
Proof.
  unfold setValue. destruct (unicode value); [|done].
  by destruct (list_setitem _ _ _).
Qed.

Lemma wf_store (st : state) (r : nat) (self' : setting) :
  wf st → wf (with_heap st (<[r := self']> (heap st))).
Proof. intros [Hl Hd]. split; simpl; by rewrite length_insert. Qed.

Lemma registry_inv_empty (fs : gmap string string) (ro : list string) :
  registry_inv (empty_state fs ro).
Proof.
  split; [done|]. split.
  - intros k r H. simpl in H. by rewrite lookup_empty in H.
  - intros r self H. done.
Qed.

Lemma registry_inv_store (st : state) (r : nat) (self self' : setting) :
  registry_inv st →
  heap st !! r = Some self →
  _name self' = _name self →
  registry_inv (with_heap st (<[r := self']> (heap st))).
Proof.
  intros (Hlist & Hdict & Hheap) Hr Hname.
  assert (Hlt : (r < length (heap st))%nat) by (by eapply lookup_lt_Some).
  split; [|split]; simpl.
  - by rewrite length_insert.
  - intros k z Hk. destruct (Hdict k z Hk) as (s & Hs & Hsname).
    destruct (decide (z = r)) as [->|Hne].
    + exists self'. rewrite list_lookup_insert_eq by done.
      split; [done|]. congruence.
    + exists s. by rewrite list_lookup_insert_ne.
  - intros z s Hz. destruct (decide (z = r)) as [->|Hne].
    + rewrite list_lookup_insert_eq in Hz by done. injection Hz as <-.
      rewrite Hname. by apply Hheap.
    + rewrite list_lookup_insert_ne in Hz by done. by apply Hheap.
Qed.

Lemma registry_inv_init (st : state) (name : string) (default : pyvalue)
  (type : pytype) (category subcategory : string) :
  registry_inv st →
  registry_inv (fst (setting_init name default type category subcategory st)).
Proof.
  intros (Hlist & Hdict & Hheap). unfold setting_init, bind, lift.
  destruct (unicode default) as [d|e]; [|done]. simpl.
  split; [|split]; simpl.
  - rewrite Hlist, length_app. simpl. by rewrite Nat.add_1_r, seq_S.
  - intros k r Hk. destruct (decide (k = name)) as [->|Hne].
    + rewrite lookup_insert_eq in Hk. injection Hk as <-.
      eexists. by rewrite lookup_app_r, Nat.sub_diag.
    + rewrite lookup_insert_ne in Hk by done.
      destruct (Hdict k r Hk) as (s & Hs & Hsname).
      exists s. split; [|done]. by apply lookup_app_l_Some.
  - intros r self Hr.
    destruct (decide (r < length (heap st))%nat) as [Hlt|Hge].
    + rewrite lookup_app_l in Hr by done.
      destruct (decide (_name self = name)) as [->|Hne].
      * exists (length (heap st)). rewrite lookup_insert_eq. split; [done|lia].
      * rewrite lookup_insert_ne by done. by apply Hheap.
    + rewrite lookup_app_r in Hr by lia.
      apply list_lookup_singleton_Some in Hr as [Hr0 <-]. simpl.
      exists (length (heap st)). rewrite lookup_insert_eq. split; [done|lia].
Qed.

Lemma run_op_inv (st : state) (o : op) :
  wf st ∧ registry_inv st → wf (run_op st o) ∧ registry_inv (run_op st o).
Proof.
  intros [Hwf Hinv]. destruct o as [n d t c s|r v i|r lo hi|r l t]; simpl.
  - split; [by apply setting_init_wf|by apply registry_inv_init].
  - split; [by apply call_setValue_wf|].
    unfold call_setValue, bind, deref.
    destruct (heap st !! r) as [self|] eqn:Hr; [|done].
    destruct (setValue_static (_selectedMachineIndex st) self v i)
      as [Hname _].
    destruct (setValue _ self v i) as [self' res]. simpl in *.
    by apply (registry_inv_store st r self self').
  - unfold call_setRange, bind, deref.
    destruct (heap st !! r) as [self|] eqn:Hr; [|done].
    assert (Hname : _name (fst (setRange self lo hi)) = _name self)
      by (unfold setRange; by destruct (_validators self)).
    destruct (setRange self lo hi) as [self' res]. simpl in *.
    split; [by apply wf_store|by apply (registry_inv_store st r self self')].
  - unfold call_setLabel, bind, deref.
    destruct (heap st !! r) as [self|] eqn:Hr; [|done]. simpl.
    split; [by apply wf_store|by apply (registry_inv_store st r self)].
Qed.

(** Every state built from the empty registries by constructing settings
    and calling their mutating methods is well formed and keeps the
    invariant. *)
Lemma run_ops_inv (fs : gmap string string) (ro : list string)
  (ops : list op) :
  wf (run_ops fs ro ops) ∧ registry_inv (run_ops fs ro ops).
Proof.
  unfold run_ops. induction ops as [|o ops IH] using rev_ind.
  - split; [apply empty_state_wf|apply registry_inv_empty].
  - rewrite foldl_snoc. by apply run_op_inv.
Qed.

Lemma registry_inv_wf (st : state) : registry_inv st → wf st.
Proof.
  intros (Hlist & Hdict & _). split.
  - rewrite Hlist. apply Forall_forall. intros r Hr.
    apply elem_of_seq in Hr. lia.
  - intros k r Hk. destruct (Hdict k r Hk) as (s & Hs & _).
    by eapply lookup_lt_Some.
Qed.

(** ** The profile string: decoding *)

Lemma isProfile_category (a b : setting) :
  _category a = _category b → isProfile a = isProfile b.
Proof.
  intros H. unfold isProfile, isPreference, isMachineSetting. by rewrite H.
Qed.

(** Storing the bytes of a plain value [v] through [setValue] with no index:
    the call returns, and the object then reads [v] at the current index. *)
Lemma call_setValue_plain (cur : state) (r : nat) (self' : setting)
  (v : ustring) :
  0 <= _selectedMachineIndex cur →
  heap cur !! r = Some self' →
  plain_value v →
  ∃ self'',
    call_setValue r (PyStr (encode_utf8 v)) None cur
      = (with_heap cur (<[r := self'']> (heap cur)), Ok tt) ∧
    _name self'' = _name self' ∧
    _category self'' = _category self' ∧
    getValue (_selectedMachineIndex cur) self'' None = Ok v.
Proof.
  intros Hsel Hr Hv.
  assert (Hu : unicode (PyStr (encode_utf8 v)) = Ok v)
    by (by apply ascii_decode_encode_utf8).
  destruct (setValue_then_getValue_default_index
              (_selectedMachineIndex cur) self' _ v Hsel Hu) as [Hres Hget].
  destruct (setValue_static (_selectedMachineIndex cur) self'
              (PyStr (encode_utf8 v)) None) as [Hname Hcat].
  unfold call_setValue, bind, deref. rewrite Hr.
  destruct (setValue _ self' _ None) as [self'' res]. simpl in *.
  exists self''. by subst res.
Qed.

Lemma pair_nonempty (name value : string) :
  (0 <? String.length (name +:+ str1 EQ +:+ value))%nat = true.
Proof. by destruct name. Qed.

(** One pair of the primary block, for a key the dictionary maps to a profile
    setting. *)
Lemma apply_option_profile (cur : state) (r : nat) (self' : setting)
  (name : string) (v : ustring) :
  0 <= _selectedMachineIndex cur →
  settingsDictionary cur !! name = Some r →
  heap cur !! r = Some self' →
  isProfile self' = true →
  str_contains EQ name = false →
  plain_value v →
  ∃ self'',
    apply_option false (name +:+ str1 EQ +:+ encode_utf8 v) cur
      = (with_heap cur (<[r := self'']> (heap cur)), Ok tt) ∧
    _name self'' = _name self' ∧
    _category self'' = _category self' ∧
    getValue (_selectedMachineIndex cur) self'' None = Ok v.
Proof.
  intros Hsel Hd Hr Hprof Hname Hv.
  destruct (call_setValue_plain cur r self' v Hsel Hr Hv)
    as (self'' & Hcall & Hrest).
  exists self''. split; [|done].
  unfold apply_option. rewrite pair_nonempty.
  unfold str_split1.
  change (name +:+ str1 EQ +:+ encode_utf8 v)
    with (name +:+ String EQ (encode_utf8 v)).
  rewrite str_partition_at by done. simpl.
  unfold bind at 1, lift. unfold bind at 1, gets. rewrite Hd.
  unfold bind at 1, deref. rewrite Hr, Hprof. exact Hcall.
Qed.

Lemma apply_option_empty (b : bool) (cur : state) :
  apply_option b EmptyString cur = (cur, Ok tt).
Proof. reflexivity. Qed.

(** Splitting the joined block and walking the pieces is walking the
    pairs. *)
Lemma for_each_split_join (b : bool) (pairs : list string) (cur : state) :
  Forall (fun x => str_contains BS x = false) pairs →
  for_each (str_split BS (str_join BS pairs)) (apply_option b) cur
  = for_each pairs (apply_option b) cur.
Proof.
  intros Hall. destruct pairs as [|x pairs].
  - simpl. unfold bind. by rewrite apply_option_empty.
  - by rewrite str_split_join.
Qed.

Lemma expected_pairs_plain (st : state) (l : list nat) :
  shareable st → (∀ r, r ∈ l → r ∈ settingsList st) →
  Forall (fun x => str_contains BS x = false ∧ str_contains FF x = false)
         (expected_pairs st l).
Proof.
  intros Hshare. induction l as [|r l IH]; intros Hin; simpl; [done|].
  apply Forall_app. split.
  - destruct (heap st !! r) as [self|] eqn:Hr; [|done].
    destruct (isProfile self) eqn:Hprof; [|done].
    destruct (Hshare r self) as ((_ & Hbs & Hff) & v & Hv & Hplain);
      [apply Hin, list_elem_of_here|done|done|].
    rewrite Hv. apply Forall_singleton.
    change (getName self +:+ str1 EQ +:+ encode_utf8 v)
      with (_name self +:+ String EQ (encode_utf8 v)).
    rewrite !str_contains_app. simpl.
    rewrite Hbs, Hff, !encode_utf8_no_separator by auto. done.
  - apply IH. intros z Hz. by apply Hin, list_elem_of_further.
Qed.

Lemma same_registry_store (st cur : state) (r : nat) (self' self'' : setting) :
  same_registry st cur →
  heap cur !! r = Some self' →
  _name self'' = _name self' → _category self'' = _category self' →
  same_registry st (with_heap cur (<[r := self'']> (heap cur))).
Proof.
  intros (Hd & Hl & Hsel & Hlen & Hstatic) Hr Hname Hcat.
  split; [done|]. split; [done|]. split; [done|]. split.
  - simpl. by rewrite length_insert.
  - intros z s s' Hs Hs'. simpl in Hs'.
    destruct (decide (z = r)) as [->|Hne].
    + rewrite list_lookup_insert_eq in Hs' by (by eapply lookup_lt_Some).
      injection Hs' as <-. rewrite Hname, Hcat. by apply (Hstatic r).
    + rewrite list_lookup_insert_ne in Hs' by done. by apply (Hstatic z).
Qed.

(** One pair of the primary block, for a key the dictionary maps to a
    setting of another category: nothing is written. *)
Lemma apply_option_other_category (cur : state) (r : nat) (self' : setting)
  (name value : string) :
  settingsDictionary cur !! name = Some r →
  heap cur !! r = Some self' →
  isProfile self' = false →
  str_contains EQ name = false →
  apply_option false (name +:+ str1 EQ +:+ value) cur = (cur, Ok tt).
Proof.
  intros Hd Hr Hprof Hname.
  unfold apply_option. rewrite pair_nonempty.
  unfold str_split1.
  change (name +:+ str1 EQ +:+ value) with (name +:+ String EQ value).
  rewrite str_partition_at by done. simpl.
  unfold bind at 1, lift. unfold bind at 1, gets. rewrite Hd.
  unfold bind at 1, deref. by rewrite Hr, Hprof.
Qed.

(** The loop over the primary block, for the pairs of the references [n] to
    [n + k - 1] and started in any state [cur] with the registry of [st].
    The pair of a profile setting is written to the dictionary's entry for
    its name, which is that setting or a later one: a setting that is its
    name's entry and was restored by an earlier pair stays restored, and no
    setting of another category is written. *)
Lemma restore_loop (st : state) :
  0 <= _selectedMachineIndex st →
  registry_inv st →
  shareable st →
  ∀ (k n : nat) (cur : state),
    (n + k = length (heap st))%nat →
    same_registry st cur →
    (∀ r self, (r < n)%nat → heap st !! r = Some self →
               settingsDictionary st !! _name self = Some r →
               restored st cur r) →
    ∃ fin,
      for_each (expected_pairs st (seq n k)) (apply_option false) cur
        = (fin, Ok tt) ∧
      same_registry st fin ∧
      (∀ r self, heap st !! r = Some self →
                 settingsDictionary st !! _name self = Some r →
                 restored st fin r) ∧
      (∀ r s, heap cur !! r = Some s → isProfile s = false →
              heap fin !! r = Some s).
Proof.
  intros Hsel Hinv Hshare.
  pose proof Hinv as (Hlist & Hdict & Hheap).
  induction k as [|k IH]; intros n cur Hnk Hsame HD.
  - exists cur. split; [done|]. split; [done|]. split; [|done].
    intros r self Hr Hd. apply (HD r self); [|done|done].
    apply lookup_lt_Some in Hr. lia.
  - assert (Hlt : (n < length (heap st))%nat) by lia.
    destruct (lookup_lt_is_Some_2 (heap st) n Hlt) as [self Hself].
    assert (Hin : n ∈ settingsList st).
    { rewrite Hlist. apply elem_of_seq. lia. }
    change (expected_pairs st (seq n (S k)))
      with (match heap st !! n with
            | Some self =>
                if isProfile self then
                  match getValue (_selectedMachineIndex st) self None with
                  | Ok v => [getName self +:+ str1 EQ +:+ encode_utf8 v]
                  | Raise _ => []
                  end
                else []
            | None => []
            end ++ expected_pairs st (seq (S n) k)).
    rewrite Hself.
    pose proof Hsame as (Hd & Hl & Hsel' & Hlen & Hstatic).
    destruct (isProfile self) eqn:Hprof.
    + destruct (Hshare n self Hin Hself Hprof)
        as ((Heq & _ & _) & v & Hv & Hplain).
      rewrite Hv. cbn [app for_each].
      destruct (Hheap n self Hself) as (d & Hdn & Hle).
      destruct (Hdict _ d Hdn) as (sd & Hsd & Hsdname).
      assert (Hdlt : (d < length (heap st))%nat) by (by eapply lookup_lt_Some).
      destruct (lookup_lt_is_Some_2 (heap cur) d) as [sd' Hsd']; [lia|].
      destruct (Hstatic d sd sd' Hsd Hsd') as [Hname' Hcat'].
      destruct (isProfile sd') eqn:Hprofd.
      * destruct (apply_option_profile cur d sd' (getName self) v)
          as (s'' & Happly & Hname'' & Hcat'' & Hget);
          [lia|by rewrite Hd|done|done|done|done|].
        unfold bind at 1. rewrite Happly.
        destruct (IH (S n) (with_heap cur (<[d := s'']> (heap cur))))
          as (fin & Hrun & Hsame_fin & Hrest & Hother).
        -- lia.
        -- by apply (same_registry_store st cur d sd' s'').
        -- intros r s Hr Hs Hds. destruct (decide (r = d)) as [->|Hne].
           ++ assert (d = n) by lia. subst d.
              intros s0 Hs0 _. exists s''. simpl.
              rewrite list_lookup_insert_eq by lia.
              split; [done|]. rewrite Hget. congruence.
           ++ assert (Hrn : (r < n)%nat).
              { destruct (decide (r = n)) as [->|?]; [|lia].
                rewrite Hself in Hs. injection Hs as <-.
                rewrite Hdn in Hds. congruence. }
              intros s0 Hs0 Hp.
              destruct (HD r s Hrn Hs Hds s0 Hs0 Hp) as (s2 & Hs2 & Hg).
              exists s2. simpl. by rewrite list_lookup_insert_ne.
        -- exists fin. split; [done|]. split; [done|]. split; [done|].
           intros z s Hz Hp. apply Hother; [|done]. simpl.
           rewrite list_lookup_insert_ne; [done|].
           intros ->. rewrite Hsd' in Hz. injection Hz as <-. congruence.
      * unfold bind at 1.
        rewrite (apply_option_other_category cur d sd' (getName self)
                   (encode_utf8 v)) by (done || by rewrite Hd).
        destruct (IH (S n) cur) as (fin & Hrun & Hsame_fin & Hrest & Hother);
          [lia|done| |by exists fin].
        intros r s Hr Hs Hds. destruct (decide (r = n)) as [->|Hne].
        -- exfalso. rewrite Hself in Hs. injection Hs as <-.
           rewrite Hdn in Hds. injection Hds as ->.
           rewrite Hself in Hsd. injection Hsd as <-.
           rewrite (isProfile_category sd' self) in Hprofd by done.
           congruence.
        -- apply (HD r s); [lia|done|done].
    + cbn [app].
      destruct (IH (S n) cur) as (fin & Hrun & Hsame_fin & Hrest & Hother);
        [lia|done| |by exists fin].
      intros r s Hr Hs Hds. destruct (decide (r = n)) as [->|Hne].
      * intros s0 Hs0 Hp. congruence.
      * apply (HD r s); [lia|done|done].
Qed.

(** ** The profile string: round trip *)

(** C1, as amended. Take a registry as constructing settings builds it: the
    list holds the objects in construction order and the dictionary binds
    each name to its latest registration ([registry_inv], which every state
    the module can reach satisfies, see [run_ops_inv]).  Let every profile
    setting of the list have a name free of [=] and of the separator bytes
    and, at the current index (taken non-negative), an ASCII value free of
    the separator bytes.  Then [getProfileString] returns a string [s], and
    [setProfileFromString(s)], run on any state with the same registry but
    possibly other values, returns normally, restores every profile setting
    of the list that is the dictionary's entry for its name to the value it
    had when [s] was made, and writes no setting of another category. *)
Theorem profile_string_round_trip {codecs : Codecs} (st st' : state) :
  registry_inv st →
  0 <= _selectedMachineIndex st →
  shareable st →
  same_registry st st' →
  ∃ s st'',
    getProfileString st = (st, Ok s) ∧
    setProfileFromString s st' = (st'', Ok tt) ∧
    same_registry st st'' ∧
    (∀ r self, r ∈ settingsList st → heap st !! r = Some self →
               isProfile self = true →
               settingsDictionary st !! _name self = Some r →
               restored st st'' r) ∧
    (∀ r other, heap st' !! r = Some other → isProfile other = false →
                heap st'' !! r = Some other).
Proof.
  intros Hinv Hsel Hshare Hsame.
  pose proof (registry_inv_wf st Hinv) as Hwf.
  pose proof Hinv as (Hlist & _ & _).
  destruct (restore_loop st Hsel Hinv Hshare (length (heap st)) 0%nat st')
    as (fin & Hrun & Hsame_fin & Hrest & Hother); [done|done| |].
  { intros r self Hr. lia. }
  rewrite <- Hlist in Hrun.
  pose proof (expected_pairs_plain st (settingsList st) Hshare
                ltac:(done)) as Hplain.
  exists (b64encode
            (zlib_compress
               (str_join BS (expected_pairs st (settingsList st))
                +:+ str1 FF) 9)), fin.
  split; [by apply getProfileString_ok|].
  split; [|split; [done|split; [|done]]].
  2: { intros r self _ Hr _ Hd. by apply (Hrest r self). }
  unfold setProfileFromString.
  unfold bind at 1, lift. rewrite b64decode_b64encode.
  unfold bind at 1. rewrite zlib_decompress_compress.
  unfold str_split1.
  change (str_join BS (expected_pairs st (settingsList st)) +:+ str1 FF)
    with (str_join BS (expected_pairs st (settingsList st))
          +:+ String FF EmptyString).
  rewrite str_partition_at.
  - simpl. unfold bind at 1. unfold bind at 1.
    rewrite for_each_split_join, Hrun.
    + simpl. unfold bind. by rewrite apply_option_empty.
    + eapply Forall_impl; [exact Hplain|]. by intros x [? ?].
  - apply str_contains_join; [done|].
    eapply Forall_impl; [exact Hplain|]. by intros x [? ?].
Qed.

Lemma tuned_state_wf : wf tuned_state.
Proof. split; compute_done. Qed.

(** The registry with the name [exposure] registered twice is one the module
    can reach. *)
Lemma shadowed_state_inv : registry_inv shadowed_state.
Proof.
  assert (H : shadowed_state
    = run_ops ∅ []
        [OpInit "step_degrees" (PyFloat "0.45") FloatType "basic"
                "Step Degrees";
         OpSetRange 0 (PyFloat "0.1125") PyNone;
         OpInit "step_delay" (PyInt 800) IntType "basic" "Step Delay";
         OpSetRange 1 (PyInt 100) (PyInt 10000);
         OpInit "machine_name" (PyStr "") StrType "machine" "hidden";
         OpInit "language" (PyStr "English") StrType "preference" "hidden";
         OpSetLabel 3 "Language"
           "Change the language in which Horus runs. Switching language requires a restart of Horus";
         OpInit "exposure" (PyInt 1) IntType "basic" "Camera";
         OpInit "exposure" (PyInt 2) IntType "basic" "Camera"])
    by (vm_compute; reflexivity).
  rewrite H. apply run_ops_inv.
Qed.

Lemma shadowed_state_shareable : shareable shadowed_state.
Proof.
  intros r self Hin Hr Hprof.
  assert (Hcases : r = 0%nat ∨ r = 1%nat ∨ r = 2%nat ∨ r = 3%nat ∨
                   r = 4%nat ∨ r = 5%nat).
  { vm_compute in Hin.
    repeat (apply elem_of_cons in Hin as [->|Hin]; [tauto|]).
    by apply not_elem_of_nil in Hin. }
  destruct Hcases as [->|[->|[->|[->|[->| ->]]]]]; vm_compute in Hr;
    injection Hr as <-; try discriminate Hprof;
    (split; [by repeat split|];
     eexists; split; [reflexivity|];
     repeat (apply Forall_cons; split; [by (split; [|split])|]);
     apply Forall_nil_2).
Qed.

Lemma shadowed_state_same_registry :
  same_registry shadowed_state shadowed_state_changed.
Proof.
  split; [reflexivity|]. split; [reflexivity|]. split; [reflexivity|].
  split; [reflexivity|].
  intros r self self' Hr Hr'.
  destruct r as [|[|[|[|[|[|r]]]]]]; vm_compute in Hr, Hr'; simplify_eq;
    done.
Qed.

(** The round trip where a name is registered twice: the settings that are
    their names' entries, references 0, 1 and 5, are restored. *)
Lemma profile_string_round_trip_witness :
  ∃ s st'',
    @getProfileString plain_codecs shadowed_state = (shadowed_state, Ok s) ∧
    @setProfileFromString plain_codecs s shadowed_state_changed
      = (st'', Ok tt) ∧
    restored shadowed_state st'' 0 ∧
    restored shadowed_state st'' 1 ∧
    restored shadowed_state st'' 5.
Proof.
  destruct (@profile_string_round_trip plain_codecs shadowed_state
              shadowed_state_changed shadowed_state_inv ltac:(simpl; lia)
              shadowed_state_shareable shadowed_state_same_registry)
    as (s & st'' & Hget & Hset & _ & Hrest & _).
  exists s, st''. split; [exact Hget|]. split; [exact Hset|].
  split; [|split].
  - eapply (Hrest 0%nat); [|reflexivity|reflexivity|reflexivity].
    apply list_elem_of_here.
  - eapply (Hrest 1%nat); [|reflexivity|reflexivity|reflexivity].
    apply list_elem_of_further, list_elem_of_here.
  - eapply (Hrest 5%nat); [|reflexivity|reflexivity|reflexivity].
    do 5 apply list_elem_of_further. apply list_elem_of_here.
Defined.

(** The round trip on the example, spelled out: the string, and the values
    the module state holds after decoding it. *)
Example profile_string_tuned :
  snd (@getProfileString plain_codecs tuned_state)
    = Ok ("step_degrees=0.9" +:+ str1 BS +:+ "step_delay=1200" +:+ str1 FF) ∧
  map _values
      (heap (fst (@setProfileFromString plain_codecs
                    ("step_degrees=0.9" +:+ str1 BS +:+ "step_delay=1200"
                     +:+ str1 FF) initial_state)))
    = [[ustr "0.9"]; [ustr "1200"]; []; []].
Proof. split; reflexivity. Qed.

(** The claim of C1 as it is worded fails when a name holds a separator byte.
    In [odd_name_state] no name holds [=] and no value holds a separator
    byte, and reference 4 is a registered profile setting that reads [30].
    Whatever the codecs, the string made there does not decode: the pair of
    that setting is cut at the separator in its name and the first piece,
    without [=], raises [ValueError]; the setting keeps the value [45] it
    was given in between. *)
Lemma profile_string_round_trip_counterexample :
  Forall (fun self => str_contains EQ (_name self) = false)
         (heap odd_name_state) ∧
  Forall (fun self =>
            ∃ v, getValue 0 self None = Ok v ∧ (8%N ∉ v) ∧ (12%N ∉ v))
         (heap odd_name_state) ∧
  (∃ self, 4%nat ∈ settingsList odd_name_state ∧
           heap odd_name_state !! 4%nat = Some self ∧
           isProfile self = true ∧
           getValue 0 self None = Ok (ustr "30")) ∧
  ∀ codecs : Codecs,
    ∃ s st'' self'',
      getProfileString odd_name_state = (odd_name_state, Ok s) ∧
      setProfileFromString s odd_name_state_changed
        = (st'', Raise ValueError) ∧
      heap st'' !! 4%nat = Some self'' ∧
      getValue 0 self'' None = Ok (ustr "45") ∧
      ¬ restored odd_name_state st'' 4%nat.
Proof.
  split; [repeat (apply Forall_cons; split; [reflexivity|]);
          apply Forall_nil_2|].
  split.
  { repeat (apply Forall_cons; split;
            [eexists; split; [reflexivity|];
             split; intros H; vm_compute in H;
             repeat (apply elem_of_cons in H as [H|H]; [discriminate H|]);
             by apply not_elem_of_nil in H|]).
    apply Forall_nil_2. }
  split.
  { eexists. split; [|split; [reflexivity|split; reflexivity]].
    do 4 apply list_elem_of_further. apply list_elem_of_here. }
  intros codecs.
  assert (Hwf : wf odd_name_state) by (split; compute_done).
  assert (Hrun :
    setProfileFromString
      (b64encode
         (zlib_compress
            (str_join BS
               (expected_pairs odd_name_state (settingsList odd_name_state))
             +:+ str1 FF) 9)) odd_name_state_changed
    = (fst (@setProfileFromString plain_codecs
              (str_join BS
                 (expected_pairs odd_name_state
                                 (settingsList odd_name_state))
               +:+ str1 FF) odd_name_state_changed),
       Raise ValueError)).
  { unfold setProfileFromString at 1.
    unfold bind at 1, lift. rewrite b64decode_b64encode.
    unfold bind at 1. rewrite zlib_decompress_compress.
    vm_compute. reflexivity. }
  eexists _, _, _.
  split; [apply getProfileString_ok; [exact Hwf|simpl; lia]|].
  split; [exact Hrun|].
  split; [vm_compute; reflexivity|].
  split; [reflexivity|].
  intros Hrestored.
  destruct (Hrestored _ eq_refl eq_refl) as (self'' & Hself'' & Hget).
  vm_compute in Hself''. injection Hself'' as <-. vm_compute in Hget.
  discriminate Hget.
Qed.

(** Two more ways out of the hypotheses of the round trip. *)

(** Running [setProfileFromString] on the encoding of a known payload:
    the two library decoders give the payload back, whatever the codecs. *)
Lemma setProfileFromString_encoded {codecs : Codecs} (payload : string)
  (level : Z) (st : state) :
  setProfileFromString (b64encode (zlib_compress payload level)) st
  = @setProfileFromString plain_codecs payload st.
Proof.
  unfold setProfileFromString.
  unfold bind at 1, lift. rewrite b64decode_b64encode.
  unfold bind at 1. rewrite zlib_decompress_compress.
  reflexivity.
Qed.

(** A value with a code point above 127: the string carries its UTF-8 bytes,
    [setValue] receives them as a byte string, and [unicode()] of it raises
    [UnicodeDecodeError].  The setting is left with its default padded in. *)
Lemma profile_string_non_ascii_value :
  ∀ codecs : Codecs,
    ∃ s st'' self'',
      getProfileString accent_state = (accent_state, Ok s) ∧
      setProfileFromString s initial_state
        = (st'', Raise UnicodeDecodeError) ∧
      heap st'' !! 0%nat = Some self'' ∧
      _values self'' = [ustr "0.45"] ∧
      ¬ restored accent_state st'' 0%nat.
Proof.
  intros codecs.
  assert (Hwf : wf accent_state) by (split; compute_done).
  eexists _, _, _.
  split; [apply getProfileString_ok; [exact Hwf|simpl; lia]|].
  split; [rewrite setProfileFromString_encoded; vm_compute; reflexivity|].
  split; [reflexivity|]. split; [reflexivity|].
  intros Hrestored.
  destruct (Hrestored _ eq_refl eq_refl) as (self'' & Hself'' & Hget).
  vm_compute in Hself''. injection Hself'' as <-. vm_compute in Hget.
  discriminate Hget.
Qed.

(** A name registered twice: both settings are in the list and in the string,
    but the dictionary only leads to the later one, which receives both
    values in turn; the earlier one keeps the value [9] it was given in
    between. *)
Lemma profile_string_shadowed_name :
  ∀ codecs : Codecs,
    ∃ s st'' first second,
      getProfileString shadowed_state = (shadowed_state, Ok s) ∧
      setProfileFromString s shadowed_state_changed = (st'', Ok tt) ∧
      heap st'' !! 4%nat = Some first ∧
      heap st'' !! 5%nat = Some second ∧
      _values first = [ustr "9"] ∧
      _values second = [ustr "2"] ∧
      ¬ restored shadowed_state st'' 4%nat.
Proof.
  intros codecs.
  assert (Hwf : wf shadowed_state) by (split; compute_done).
  eexists _, _, _, _.
  split; [apply getProfileString_ok; [exact Hwf|simpl; lia]|].
  split; [rewrite setProfileFromString_encoded; vm_compute; reflexivity|].
  split; [reflexivity|]. split; [reflexivity|].
  split; [reflexivity|]. split; [reflexivity|].
  intros Hrestored.
  destruct (Hrestored _ eq_refl eq_refl) as (self'' & Hself'' & Hget).
  vm_compute in Hself''. injection Hself'' as <-. vm_compute in Hget.
  discriminate Hget.
Qed.

(** ** saveProfile for all machines, under a binding of getMachineCount *)

(** The rest of this section describes what the loops of
    [saveProfile(filename, True)] do once the name [getMachineCount] is bound
    to a function that returns [count] and leaves the state alone. *)

Lemma profile_section_name_inj (a b : nat) :
  profile_section_name a = profile_section_name b → a = b.
Proof.
  unfold profile_section_name. intros H. simplify_eq/=.
  apply Nat2Z.inj. by apply (inj pretty).
Qed.

(** Parsers whose sections are numbered through an injective naming. *)
Section NumberedSections.
Variable name : nat → string.
Hypothesis name_inj : ∀ a b, name a = name b → a = b.

Lemma eqb_name (a b : nat) : String.eqb (name a) (name b) = bool_decide (a = b).
Proof.
  destruct (decide (a = b)) as [->|Hne].
  - by rewrite String.eqb_refl, bool_decide_eq_true_2.
  - rewrite bool_decide_eq_false_2 by done.
    apply String.eqb_neq. intros H. by apply name_inj in H.
Qed.

Lemma has_section_numbered (G : nat → list (string * string))
  (ids : list nat) (n : nat) :
  has_section (map (fun m => (name m, G m)) ids) (name n)
  = bool_decide (n ∈ ids).
Proof.
  induction ids as [|m ids IH]; [done|].
  change (has_section (map (fun m => (name m, G m)) (m :: ids)) (name n))
    with (String.eqb (name m) (name n)
          || has_section (map (fun m => (name m, G m)) ids) (name n)).
  rewrite IH, eqb_name.
  destruct (decide (m = n)) as [->|Hne].
  - rewrite bool_decide_eq_true_2 by done. simpl. symmetry.
    apply bool_decide_eq_true. apply list_elem_of_here.
  - rewrite (bool_decide_eq_false_2 (m = n)) by done. simpl.
    apply bool_decide_ext. rewrite elem_of_cons.
    split; [auto|]. intros [Heq|Hin]; [congruence|done].
Qed.

(** [parser.set] on one of the numbered sections updates that section in
    place. *)
Lemma parser_set_numbered (G : nat → list (string * string))
  (ids : list nat) (n : nat) (option value : string) :
  NoDup ids → n ∈ ids →
  parser_set (map (fun m => (name m, G m)) ids) (name n) option value
  = Ok (map (fun m => (name m,
                       if decide (m = n)
                       then odict_set (G n) (optionxform option) value
                       else G m)) ids).
Proof.
  induction ids as [|m ids IH]; intros Hnodup Hin.
  - by apply not_elem_of_nil in Hin.
  - apply NoDup_cons in Hnodup as [Hm Hnodup].
    change (parser_set (map (fun m => (name m, G m)) (m :: ids))
                       (name n) option value)
      with (if String.eqb (name m) (name n)
            then Ok ((name m, odict_set (G m) (optionxform option) value)
                     :: map (fun m => (name m, G m)) ids)
            else match parser_set (map (fun m => (name m, G m)) ids)
                                  (name n) option value with
                 | Ok p'' => Ok ((name m, G m) :: p'')
                 | Raise e => Raise e
                 end).
    rewrite eqb_name, map_cons.
    destruct (decide (m = n)) as [->|Hne].
    + rewrite bool_decide_eq_true_2 by done. do 2 f_equal.
      apply map_ext_in. intros m Hm'. apply list_elem_of_In in Hm'.
      destruct (decide (m = n)) as [->|]; [done|reflexivity].
    + rewrite bool_decide_eq_false_2 by done.
      apply elem_of_cons in Hin as [Heq|Hin]; [congruence|].
      by rewrite IH.
Qed.

End NumberedSections.

Lemma has_section_profile (G : nat → list (string * string))
  (ids : list nat) (n : nat) :
  has_section (map (fun m => (profile_section_name m, G m)) ids)
              (profile_section_name n)
  = bool_decide (n ∈ ids).
Proof.
  apply (has_section_numbered _ profile_section_name_inj).
Qed.

Lemma parser_set_profile (G : nat → list (string * string))
  (ids : list nat) (n : nat) (option value : string) :
  NoDup ids → n ∈ ids →
  parser_set (map (fun m => (profile_section_name m, G m)) ids)
             (profile_section_name n) option value
  = Ok (map (fun m => (profile_section_name m,
                       if decide (m = n)
                       then odict_set (G n) (optionxform option) value
                       else G m)) ids).
Proof.
  apply (parser_set_numbered _ profile_section_name_inj).
Qed.

Section BoundCount.
Variable st : state.
Variable set : nat.
Variable self : setting.
Hypothesis Hself : heap st !! set = Some self.
Hypothesis Hprofile : isProfile self = true.

(** What the profile setting [self] adds to the section of index [n]. *)
Lemma store_option_profile (n : nat) (opts : list (string * string)) :
  ∃ v, getValue (_selectedMachineIndex st) self (Some (Z.of_nat n)) = Ok v ∧
       store_option st isProfile (Some (Z.of_nat n)) opts set
       = odict_set opts (optionxform (getName self)) (encode_utf8 v).
Proof.
  destruct (getValue_nonneg_total (_selectedMachineIndex st) self
              (Z.of_nat n)) as [v Hv]; [lia|].
  exists v. split; [done|].
  unfold store_option. by rewrite Hself, Hprofile, Hv.
Qed.

(** The first profile setting creates the sections as it goes. *)
Lemma inner_creates (todo n : nat) :
  for_fold (map Z.of_nat (seq n todo))
    (map (fun m => (profile_section_name m, store_option st isProfile (Some (Z.of_nat m)) [] set)) (seq 0 n)) (profile_section set self) st
  = (st, Ok (map (fun m => (profile_section_name m, store_option st isProfile (Some (Z.of_nat m)) [] set))
                 (seq 0 (n + todo)))).
Proof.
  revert n. induction todo as [|todo IH]; intros n; simpl.
  - by rewrite Nat.add_0_r.
  - unfold bind at 1. unfold profile_section at 1. fold (profile_section_name n).
    rewrite has_section_profile.
    rewrite bool_decide_eq_false_2 by (rewrite elem_of_seq; lia).
    unfold bind at 1, lift, add_section.
    replace (String.eqb (str_lower (profile_section_name n)) "default")
      with false by reflexivity.
    rewrite has_section_profile.
    rewrite bool_decide_eq_false_2 by (rewrite elem_of_seq; lia).
    destruct (store_option_profile n []) as (v & Hv & Hstored).
    unfold call_getValue, bind, deref. rewrite Hself, Hv.
    rewrite parser_set_last
      by (rewrite has_section_profile;
          apply bool_decide_eq_false_2; rewrite elem_of_seq; lia).
    rewrite <- Hstored.
    replace (map (fun m => (profile_section_name m, store_option st isProfile (Some (Z.of_nat m)) [] set)) (seq 0 n)
             ++ [(profile_section_name n, store_option st isProfile (Some (Z.of_nat n)) [] set)])
      with (map (fun m => (profile_section_name m, store_option st isProfile (Some (Z.of_nat m)) [] set))
                (seq 0 (S n)))
      by (by rewrite seq_S, map_app).
    rewrite IH. by replace (S n + todo)%nat with (n + S todo)%nat by lia.
Qed.

(** Every later profile setting finds the sections and adds its option to
    each. *)
Lemma inner_updates (F : nat → list (string * string)) (c todo n : nat) :
  (n + todo = c)%nat →
  for_fold (map Z.of_nat (seq n todo))
    (map (fun m => (profile_section_name m,
                    if decide (m < n)%nat then store_option st isProfile (Some (Z.of_nat m)) (F m) set else F m))
         (seq 0 c)) (profile_section set self) st
  = (st, Ok (map (fun m => (profile_section_name m, store_option st isProfile (Some (Z.of_nat m)) (F m) set))
                 (seq 0 c))).
Proof.
  revert n. induction todo as [|todo IH]; intros n Hn; simpl.
  - unfold ret. do 2 f_equal. apply map_ext_in. intros m Hm.
    apply in_seq in Hm. by rewrite decide_True by lia.
  - unfold bind at 1. unfold profile_section at 1. fold (profile_section_name n).
    rewrite has_section_profile.
    rewrite bool_decide_eq_true_2 by (rewrite elem_of_seq; lia).
    unfold bind at 1, ret.
    destruct (store_option_profile n (F n)) as (v & Hv & Hstored).
    unfold call_getValue, bind, deref. rewrite Hself, Hv. unfold lift.
    rewrite parser_set_profile;
      [|apply NoDup_seq|rewrite elem_of_seq; lia].
    rewrite decide_False by lia. rewrite <- Hstored.
    replace (map _ (seq 0 c))
      with (map (fun m => (profile_section_name m,
                           if decide (m < S n)%nat then store_option st isProfile (Some (Z.of_nat m)) (F m) set
                           else F m)) (seq 0 c)).
    + apply IH. lia.
    + apply map_ext_in. intros m Hm. f_equal.
      destruct (decide (m = n)) as [->|Hne].
      * by rewrite decide_True by lia.
      * destruct (decide (m < n)%nat).
        -- by rewrite decide_True by lia.
        -- by rewrite decide_False by lia.
Qed.

End BoundCount.

Lemma isProfile_negb (self : setting) :
  isPreference self || isMachineSetting self = negb (isProfile self).
Proof.
  unfold isProfile.
  by destruct (isPreference self), (isMachineSetting self).
Qed.

Lemma foldl_store_option_no_profile (st : state) (index : option Z)
  (l : list nat) :
  has_profile st l = false → foldl (store_option st isProfile index) [] l = [].
Proof.
  induction l as [|r l IH] using rev_ind; [done|].
  unfold has_profile. rewrite existsb_app. simpl.
  intros H. apply orb_false_iff in H as [Hl Hr].
  rewrite foldl_snoc, IH by done. unfold store_option.
  destruct (heap st !! r) as [self|]; [|done].
  rewrite orb_false_r in Hr. by rewrite Hr.
Qed.

(** The outer loop, after the references [done] and before the references
    [l]. *)
Lemma all_profiles_loop (st : state) (getMachineCount : M Z) (count : Z) :
  getMachineCount st = (st, Ok count) →
  ∀ (l done : list nat),
    (∀ r, r ∈ l → (r < length (heap st))%nat) →
    for_fold l
      (if has_profile st done then
         map (fun n => (profile_section_name n,
                        foldl (store_option st isProfile (Some (Z.of_nat n)))
                              [] done))
             (seq 0 (Z.to_nat count))
       else [])
      (fun set profileParser =>
         do self <- deref set;
         if isPreference self || isMachineSetting self then ret profileParser
         else
           do count <- call_global (Some getMachineCount);
           for_fold (xrange0 count) profileParser (profile_section set self))
      st
    = (st, Ok (if has_profile st (done ++ l) then
                 map (fun n =>
                        (profile_section_name n,
                         foldl (store_option st isProfile
                                             (Some (Z.of_nat n)))
                               [] (done ++ l)))
                     (seq 0 (Z.to_nat count))
               else [])).
Proof.
  intros Hcount. induction l as [|r l IH]; intros done Hrefs.
  - simpl. by rewrite app_nil_r.
  - destruct (lookup_lt_is_Some_2 (heap st) r) as [self Hself];
      [apply Hrefs, list_elem_of_here|].
    assert (Hrefs' : ∀ z, z ∈ l → (z < length (heap st))%nat)
      by (intros z Hz; by apply Hrefs, list_elem_of_further).
    replace (done ++ r :: l) with ((done ++ [r]) ++ l)
      by (by rewrite <- app_assoc).
    rewrite <- (IH (done ++ [r]) Hrefs').
    simpl. unfold bind at 1, bind at 1, deref. rewrite Hself.
    rewrite isProfile_negb.
    assert (Hhas : has_profile st (done ++ [r])
                   = has_profile st done || isProfile self).
    { unfold has_profile. rewrite existsb_app. simpl.
      by rewrite Hself, orb_false_r. }
    rewrite Hhas.
    destruct (isProfile self) eqn:Hprof; simpl.
    + unfold bind at 1, call_global. rewrite Hcount. unfold xrange0.
      rewrite orb_true_r.
      destruct (has_profile st done) eqn:Hdone.
      * pose proof (inner_updates st r self Hself Hprof
                      (fun n => foldl (store_option st isProfile
                                                    (Some (Z.of_nat n)))
                                      [] done)
                      (Z.to_nat count) (Z.to_nat count) 0%nat
                      ltac:(lia)) as Hupd.
        rewrite (map_ext_in _
                   (fun m => (profile_section_name m,
                              foldl (store_option st isProfile
                                                  (Some (Z.of_nat m)))
                                    [] done))) in Hupd
          by (intros m _; by rewrite decide_False by lia).
        match goal with
        | |- context [for_fold (map Z.of_nat ?ids) ?p ?body st] =>
            replace (for_fold (map Z.of_nat ids) p body st)
              with (st, Ok (map (fun m =>
                      (profile_section_name m,
                       store_option st isProfile (Some (Z.of_nat m))
                         (foldl (store_option st isProfile
                                              (Some (Z.of_nat m))) [] done)
                         r))
                    (seq 0 (Z.to_nat count))))
              by (symmetry; exact Hupd)
        end.
        f_equal.
        apply map_ext_in. intros m _. by rewrite foldl_snoc.
      * pose proof (inner_creates st r self Hself Hprof
                      (Z.to_nat count) 0%nat) as Hnew.
        match goal with
        | |- context [for_fold (map Z.of_nat ?ids) ?p ?body st] =>
            replace (for_fold (map Z.of_nat ids) p body st)
              with (st, Ok (map (fun m =>
                      (profile_section_name m,
                       store_option st isProfile (Some (Z.of_nat m)) [] r))
                    (seq 0 (Z.to_nat count))))
              by (symmetry; exact Hnew)
        end.
        f_equal.
        apply map_ext_in. intros m _.
        by rewrite foldl_snoc, foldl_store_option_no_profile.
    + unfold ret. rewrite orb_false_r.
      destruct (has_profile st done); [|done].
      f_equal. apply map_ext_in. intros m _. f_equal.
      rewrite foldl_snoc. unfold store_option at 2.
      by rewrite Hself, Hprof.
Qed.

(** Under a binding of [getMachineCount] that returns [count] and leaves the
    state alone, [saveProfile(filename, True)] writes the parser
    [all_profiles_parser]: it succeeds or raises [IOError]. *)
Lemma saveProfile_with_count (st : state) (filename : string)
  (getMachineCount : M Z) (count : Z) :
  wf st →
  getMachineCount st = (st, Ok count) →
  saveProfile_with (Some getMachineCount) filename true st
  = write_file filename (all_profiles_parser st (Z.to_nat count)) st.
Proof.
  intros Hwf Hcount.
  pose proof (all_profiles_loop st getMachineCount count Hcount
                (settingsList st) [] (wf_list st Hwf)) as Hloop.
  unfold saveProfile_with, bind at 1, bind at 1, gets.
  match goal with
  | |- context [for_fold ?l ?p ?body st] =>
      replace (for_fold l p body st)
        with (st, Ok (all_profiles_parser st (Z.to_nat count)))
        by (symmetry; exact Hloop)
  end.
  reflexivity.
Qed.

Example saveProfile_two_machines :
  files (fst (saveProfile_with (Some (ret 2)) "profiles.ini" true
                               initial_state)) !! "profiles.ini"
  = Some ("[profile_0]" +:+ str1 NL +:+
          "step_degrees = 0.45" +:+ str1 NL +:+
          "step_delay = 800" +:+ str1 NL +:+ str1 NL +:+
          "[profile_1]" +:+ str1 NL +:+
          "step_degrees = 0.45" +:+ str1 NL +:+
          "step_delay = 800" +:+ str1 NL +:+ str1 NL).
Proof. reflexivity. Qed.

(** * Further properties *)

(** ** setValue and the other indices *)

Lemma getValue_nonneg_lookup (sel : Z) (self : setting) (j : Z) :
  0 <= j →
  getValue sel self (Some j)
  = Ok (default (_default self) (_values self !! Z.to_nat j)).
Proof.
  intros Hj.
  destruct (_values self !! Z.to_nat j) as [v|] eqn:Hv; simpl.
  - by apply getValue_stored.
  - apply getValue_beyond. apply lookup_ge_None in Hv. lia.
Qed.


(** The values [setValue] leaves for an explicit index [0 <= i]: the padded
    list, with the new value stored when [unicode(value)] exists. *)
Lemma setValue_nonneg_values (sel : Z) (self : setting) (value : pyvalue)
  (i : Z) :
  0 <= i →
  let padded :=
    _values self
    ++ replicate (Z.to_nat (i + 1 - Z.of_nat (length (_values self))))
                 (_default self) in
  _values (fst (setValue sel self value (Some i)))
  = match unicode value with
    | Ok u => <[Z.to_nat i := u]> padded
    | Raise _ => padded
    end.
Proof.
  intros Hi padded. destruct (unicode value) as [u|e] eqn:Hu.
  - by rewrite (setValue_nonneg sel self value i u Hi Hu).
  - by rewrite (setValue_unicode_raises sel self value i e Hu).
Qed.

(** X1. [setValue(value, i)] with [0 <= i], whatever the value and whether
    or not the call raises: the list grows to [max(len, i + 1)] and never
    shrinks, the default and every other attribute stay, and [getValue] at
    every other index [0 <= j] returns what it returned before. *)
Theorem setValue_other_indices (sel sel' : Z) (self : setting)
  (value : pyvalue) (i : Z) :
  0 <= i →
  let self' := fst (setValue sel self value (Some i)) in
  length (_values self')
    = Nat.max (length (_values self)) (Z.to_nat i + 1) ∧
  _default self' = _default self ∧
  self' = with_values self (_values self') ∧
  ∀ j, 0 <= j → j ≠ i →
       getValue sel' self' (Some j) = getValue sel' self (Some j).
Proof.
  intros Hi self'.
  pose proof (setValue_nonneg_values sel self value i Hi) as Hvals.
  fold self' in Hvals. simpl in Hvals.
  assert (Hshape : self' = with_values self (_values self')).
  { subst self'. unfold setValue. destruct (unicode value); [|done].
    by destruct (list_setitem _ _ _). }
  assert (Hdef : _default self' = _default self) by (by rewrite Hshape).
  split; [|split; [done|split; [done|]]].
  - rewrite Hvals. destruct (unicode value);
      rewrite ?length_insert, length_app, length_replicate; lia.
  - intros j Hj Hne. rewrite !getValue_nonneg_lookup by done.
    rewrite Hdef, Hvals. f_equal.
    assert (Hpad : ∀ n : nat,
      default (_default self)
              ((_values self ++ replicate n (_default self)) !! Z.to_nat j)
      = default (_default self) (_values self !! Z.to_nat j)).
    { intros n.
      destruct (decide (Z.to_nat j < length (_values self))%nat) as [Hlt|Hge].
      - by rewrite lookup_app_l.
      - rewrite lookup_app_r by lia.
        rewrite (lookup_ge_None_2 (_values self)) by lia. simpl.
        destruct (replicate n (_default self) !! _) as [d|] eqn:Hd; [|done].
        apply lookup_replicate in Hd as [-> _]. done. }
    destruct (unicode value); [rewrite list_lookup_insert_ne by lia|];
      apply Hpad.
Qed.

Lemma setValue_other_indices_witness :
  let self := with_values machine_name_setting [ustr "Zum"; ustr "Ciclop"] in
  let self' := fst (setValue 0 self (PyStr "Witbox") (Some 3)) in
  length (_values self') = 4%nat ∧
  getValue 0 self' (Some 1) = Ok (ustr "Ciclop") ∧
  getValue 0 self' (Some 2) = getValue 0 self (Some 2).
Proof.
  intros self self'.
  destruct (setValue_other_indices 0 0 self (PyStr "Witbox") 3 ltac:(lia))
    as (Hlen & _ & _ & Hother).
  split; [exact Hlen|]. split.
  - exact (eq_trans (Hother 1 ltac:(lia) ltac:(lia)) eq_refl).
  - apply Hother; lia.
Defined.



(** ** validate *)

(** ** validate *)

Lemma validate_loop (run : setting → validator → outcome * string)
  (self : setting) (vs : list validator) (result : outcome)
  (msgs : list string) :
  let results := map (run self) vs in
  severity (fst (foldl (validate_step run self) (result, msgs) vs))
    = Nat.max (severity result)
              (max_list_with (fun p => severity (fst p)) results) ∧
  snd (foldl (validate_step run self) (result, msgs) vs)
    = msgs ++ map snd (List.filter
                         (fun p => negb (outcome_eqb (fst p) SUCCESS))
                         results).
Proof.
  revert result msgs. induction vs as [|v vs IH]; intros result msgs.
  - simpl. split; [lia|by rewrite app_nil_r].
  - cbn [foldl map max_list_with].
    destruct (validate_step run self (result, msgs) v) as [r1 m1] eqn:Hstep.
    destruct (IH r1 m1) as [IH1 IH2]. cbn zeta in IH1, IH2.
    rewrite IH1, IH2.
    unfold validate_step in Hstep.
    destruct (run self v) as [res err]. simpl.
    injection Hstep as <- <-. split.
    + destruct res, result; simpl; lia.
    + destruct res; simpl; by rewrite <- ?app_assoc.
Qed.

(** X3. [validate] returns the most severe outcome its validators give
    (error over warning over success; success when there is none), and the
    messages of the validators that did not succeed, in order, joined by
    newlines. *)
Theorem validate_most_severe (run : setting → validator → outcome * string)
  (self : setting) :
  let results := map (run self) (_validators self) in
  severity (fst (validate run self))
    = max_list_with (fun p => severity (fst p)) results ∧
  (fst (validate run self) = ERROR ↔
     Exists (fun p => fst p = ERROR) results) ∧
  (fst (validate run self) = SUCCESS ↔
     Forall (fun p => fst p = SUCCESS) results) ∧
  snd (validate run self)
    = str_join NL (map snd (List.filter
                              (fun p => negb (outcome_eqb (fst p) SUCCESS))
                              results)).
Proof.
  intros results. unfold validate.
  destruct (validate_loop run self (_validators self) SUCCESS [])
    as [Hsev Hmsgs].
  destruct (foldl _ _ _) as [result msgs]. simpl in *. fold results in Hsev.
  assert (Hmax_err : ∀ l : list (outcome * string),
            max_list_with (fun p => severity (fst p)) l = 2%nat ↔
            Exists (fun p => fst p = ERROR) l).
  { induction l as [|[o e] l IH].
    - simpl. split; [lia|by intros ?%Exists_nil].
    - rewrite Exists_cons. cbn [max_list_with fst].
      assert (Hle : (max_list_with (fun p => severity (fst p)) l <= 2)%nat).
      { clear. induction l as [|[o e] l IH]; cbn [max_list_with fst]; [lia|].
        destruct o; cbn [severity]; lia. }
      split.
      + intros H. destruct o; cbn [severity] in H; auto;
          right; apply IH; lia.
      + intros [Ho|H]; [subst o; cbn [severity]; lia|].
        apply IH in H. destruct o; cbn [severity]; lia. }
  assert (Hmax_ok : ∀ l : list (outcome * string),
            max_list_with (fun p => severity (fst p)) l = 0%nat ↔
            Forall (fun p => fst p = SUCCESS) l).
  { induction l as [|[o e] l IH]; [done|].
    rewrite Forall_cons. cbn [max_list_with fst]. split.
    + intros H. destruct o; cbn [severity] in H; try lia. split; [done|].
      apply IH. lia.
    + intros [Ho H]. subst o. cbn [severity]. apply IH in H. lia. }
  split; [done|]. split; [|split; [|by subst msgs]].
  - rewrite <- Hmax_err, <- Hsev. by destruct result.
  - rewrite <- Hmax_ok, <- Hsev. by destruct result.
Qed.

(** ** Reachable registries *)

(** X4. Whatever settings are constructed and whatever values, ranges and
    labels are set, in any order: every reference of the registries is
    valid, the list holds every object once in construction order, every
    dictionary entry leads to an object of that name, and every object's name
    is bound to it or to a later object.  When no two objects share a name,
    the dictionary maps the name of each listed setting to that setting. *)
Theorem registry_invariant (fs : gmap string string) (ro : list string)
  (ops : list op) :
  let st := run_ops fs ro ops in
  wf st ∧ registry_inv st ∧ NoDup (settingsList st) ∧
  (NoDup (map _name (heap st)) →
   ∀ r self, r ∈ settingsList st → heap st !! r = Some self →
             settingsDictionary st !! _name self = Some r).
Proof.
  intros st.
  destruct (run_ops_inv fs ro ops) as [Hwf Hinv]. fold st in Hwf, Hinv. split; [done|]. split; [done|].
  pose proof Hinv as (Hlist & Hdict & Hheap).
  split; [rewrite Hlist; apply NoDup_seq|].
  intros Hnodup r self _ Hr.
  destruct (Hheap r self Hr) as (r' & Hr' & _).
  destruct (Hdict _ r' Hr') as (self2 & Hself2 & Hname).
  rewrite Hr'. f_equal.
  apply (NoDup_lookup (map _name (heap st)) r' r (_name self)); [done| |].
  - by rewrite list_lookup_fmap, Hself2; simpl; rewrite Hname.
  - by rewrite list_lookup_fmap, Hr.
Qed.

(** X5. A setting just constructed has no stored value: read with no index,
    it returns its default when it is a preference or the selected machine
    index is not negative, and raises [IndexError] otherwise. *)
Theorem setting_init_then_getValue (st : state) (name : string)
  (default : pyvalue) (type : pytype) (category subcategory : string)
  (d : ustring) :
  unicode default = Ok d →
  let read := do r <- setting_init name default type category subcategory;
              call_getValue r None in
  fst (read st) = fst (setting_init name default type category subcategory st)
  ∧ snd (read st)
    = if (category =? "preference")%string || (0 <=? _selectedMachineIndex st)
      then Ok d else Raise IndexError.
Proof.
  intros Hd read. subst read.
  unfold setting_init, call_getValue, bind at 1 2, lift. rewrite Hd.
  unfold bind at 1. cbn [fst snd].
  unfold bind, deref. cbn [heap _selectedMachineIndex].
  rewrite lookup_app_r, Nat.sub_diag by done. cbn [lookup list_lookup fst snd].
  split; [done|].
  unfold getValue, getValueIndex, isProfile, isMachineSetting, isPreference.
  cbn [_category _values _default length].
  destruct (String.eqb category "preference") eqn:Hpref; simpl.
  - apply String.eqb_eq in Hpref. subst category. reflexivity.
  - rewrite orb_negb_r. unfold list_getitem. cbn [length].
    repeat match goal with
           | |- context [Z.ltb ?a ?b] => destruct (Z.ltb_spec a b)
           | |- context [Z.leb ?a ?b] => destruct (Z.leb_spec a b)
           end; simpl in *; try done; lia.
Qed.

Lemma setting_init_then_getValue_witness :
  snd ((do r <- setting_init "exposure" (PyInt 16) IntType "basic" "Camera";
        call_getValue r None) initial_state)
  = Ok (ustr "16").
Proof.
  exact (proj2 (setting_init_then_getValue initial_state "exposure"
                  (PyInt 16) IntType "basic" "Camera" (ustr "16") eq_refl)).
Defined.

Lemma registry_invariant_witness :
  let st := run_ops ∅ []
              [OpInit "step_degrees" (PyFloat "0.45") FloatType "basic"
                      "Step Degrees";
               OpSetRange 0 (PyFloat "0.1125") PyNone;
               OpInit "machine_name" (PyStr "") StrType "machine" "hidden";
               OpSetValue 1 (PyStr "Zum") (Some 0)] in
  settingsList st = [0%nat; 1%nat] ∧
  settingsDictionary st !! "machine_name" = Some 1%nat.
Proof.
  intros st.
  destruct (registry_invariant ∅ []
              [OpInit "step_degrees" (PyFloat "0.45") FloatType "basic"
                      "Step Degrees";
               OpSetRange 0 (PyFloat "0.1125") PyNone;
               OpInit "machine_name" (PyStr "") StrType "machine" "hidden";
               OpSetValue 1 (PyStr "Zum") (Some 0)])
    as (_ & (Hlist & _ & _) & _ & Hdict).
  split; [exact Hlist|].
  apply (Hdict ltac:(compute_done) 1%nat
           (with_values machine_name_setting [ustr "Zum"]));
    [compute_done|reflexivity].
Defined.

(** ** Categories by name *)

Lemma registered_as_spec (isX : setting → bool) (name : string) (st : state) :
  wf st →
  registered_as isX name st
  = (st, Ok (match settingsDictionary st !! name with
             | Some r =>
                 match heap st !! r with
                 | Some self => if isX self then Some r else None
                 | None => None
                 end
             | None => None
             end)) ∧
  (∀ r, settingsDictionary st !! name = Some r → is_Some (heap st !! r)).
Proof.
  intros Hwf.
  assert (Hvalid : ∀ r, settingsDictionary st !! name = Some r →
                        is_Some (heap st !! r)).
  { intros r Hr. apply lookup_lt_is_Some_2. by eapply wf_dict. }
  split; [|done].
  unfold registered_as, bind at 1, gets.
  destruct (settingsDictionary st !! name) as [r|] eqn:Hd; [|done].
  destruct (Hvalid r eq_refl) as [self Hself].
  unfold bind, deref. by rewrite Hself.
Qed.

(** X6. The three tests by name change nothing and never raise; for a name
    in the dictionary exactly one of [isProfileSetting], [isPreference] and
    [isMachineSetting] answers [True], for any other name none does. *)
Theorem categories_by_name (st : state) (name : string) :
  wf st →
  ∃ profile preference machine : bool,
    isProfileSetting name st = (st, Ok profile) ∧
    ByName.isPreference name st = (st, Ok preference) ∧
    ByName.isMachineSetting name st = (st, Ok machine) ∧
    (is_Some (settingsDictionary st !! name) →
     (profile, preference, machine) = (true, false, false) ∨
     (profile, preference, machine) = (false, true, false) ∨
     (profile, preference, machine) = (false, false, true)) ∧
    (settingsDictionary st !! name = None →
     (profile, preference, machine) = (false, false, false)).
Proof.
  intros Hwf.
  unfold isProfileSetting, ByName.isPreference, ByName.isMachineSetting.
  unfold bind.
  rewrite (proj1 (registered_as_spec isProfile name st Hwf)).
  rewrite (proj1 (registered_as_spec isPreference name st Hwf)).
  rewrite (proj1 (registered_as_spec isMachineSetting name st Hwf)).
  pose proof (proj2 (registered_as_spec isProfile name st Hwf)) as Hvalid.
  destruct (settingsDictionary st !! name) as [r|] eqn:Hd; simpl in *.
  - destruct (Hvalid r eq_refl) as [self Hself].
    rewrite Hself. unfold ret.
    unfold isProfile in *.
    assert (Hexcl : isPreference self = true → isMachineSetting self = false).
    { unfold isPreference, isMachineSetting. intros H.
      apply String.eqb_eq in H. by rewrite H. }
    eexists _, _, _. repeat split.
    + intros _. destruct (isPreference self) eqn:Hp.
      * rewrite Hexcl by done. auto.
      * destruct (isMachineSetting self); auto.
    + done.
  - eexists _, _, _. repeat split. done.
Qed.

Lemma categories_by_name_witness :
  isProfileSetting "language" initial_state = (initial_state, Ok false) ∧
  ByName.isPreference "language" initial_state = (initial_state, Ok true) ∧
  ByName.isMachineSetting "language" initial_state
    = (initial_state, Ok false).
Proof.
  destruct (categories_by_name initial_state "language" initial_state_wf)
    as (p & q & m & Hp & Hq & Hm & _).
  vm_compute in Hp, Hq, Hm.
  injection Hp as <-. injection Hq as <-. injection Hm as <-.
  repeat split.
Defined.

(** ** The registry queries *)

Section Queries.
Variable conditions : nat → list (state → bool).
Variable st : state.
Hypothesis Hwf : wf st.
Variable category : string.

Lemma getSubCategoriesFor_loop (l : list nat) :
  (∀ r, r ∈ l → (r < length (heap st))%nat) →
  ∀ (p : list nat) (done : gmap string bool) (ret_ : list string),
    (∀ x, is_Some (done !! x) ↔ x ∈ ret_) →
    NoDup ret_ →
    (∀ x, x ∈ ret_ ↔ x ∈ active_subcategories conditions st category p) →
    ret_ `sublist_of` active_subcategories conditions st category p →
    ∃ done' ret',
      for_fold l (done, ret_)
        (fun s acc =>
           let '(done, ret_) := acc in
           do self <- deref s;
           if String.eqb (getCategory self) category
              && negb (bool_decide (is_Some (done !! getSubCategory self)))
           then
             do active <- checkConditions conditions s;
             if active
             then ret (<[getSubCategory self := true]> done,
                       ret_ ++ [getSubCategory self])
             else ret (done, ret_)
           else ret (done, ret_)) st
      = (st, Ok (done', ret')) ∧
      NoDup ret' ∧
      (∀ x, x ∈ ret' ↔ x ∈ active_subcategories conditions st category (p ++ l)) ∧
      ret' `sublist_of` active_subcategories conditions st category (p ++ l).
Proof.
  induction l as [|r l IH]; intros Hrefs p done ret_ Hdone Hnodup Hin Hsub.
  - exists done, ret_. rewrite app_nil_r.
    split; [reflexivity|]. split; [done|]. split; done.
  - destruct (lookup_lt_is_Some_2 (heap st) r) as [self Hself];
      [apply Hrefs, list_elem_of_here|].
    assert (Hrefs' : ∀ z, z ∈ l → (z < length (heap st))%nat)
      by (intros z Hz; by apply Hrefs, list_elem_of_further).
    replace (p ++ r :: l) with ((p ++ [r]) ++ l) by (by rewrite <- app_assoc).
    assert (Hsubs : active_subcategories conditions st category (p ++ [r])
                    = active_subcategories conditions st category p ++ (if active_in conditions st category r
                                     then [getSubCategory self] else [])).
    { unfold active_subcategories. rewrite List.filter_app, map_app. simpl.
      destruct (active_in conditions st category r); [|done].
      simpl. unfold subcategory_of. by rewrite Hself. }
    assert (Hactive : active_in conditions st category r
                      = String.eqb (getCategory self) category
                        && forallb (fun c => c st) (conditions r))
      by (unfold active_in; by rewrite Hself).
    cbn [for_fold]. unfold bind at 1, bind at 1, deref. rewrite Hself.
    destruct (String.eqb (getCategory self) category) eqn:Hcat; simpl.
    + destruct (decide (is_Some (done !! getSubCategory self))) as [Hd|Hd].
      * rewrite bool_decide_eq_true_2 by done. simpl. unfold ret.
        apply (IH Hrefs' (p ++ [r]) done ret_); [done|done| |].
        -- intros x. rewrite Hsubs, elem_of_app, <- Hin.
           destruct (active_in conditions st category r);
             [|rewrite elem_of_nil; tauto].
           rewrite list_elem_of_singleton. split; [auto|].
           intros [?| ->]; [done|]. by apply Hdone.
        -- rewrite Hsubs. by apply sublist_inserts_r.
      * rewrite bool_decide_eq_false_2 by done. simpl.
        unfold bind, checkConditions. rewrite Hactive in Hsubs.
        simpl in Hsubs.
        destruct (forallb (fun c => c st) (conditions r)); unfold ret.
        -- assert (Hnew : getSubCategory self ∉ ret_)
             by (intros Hx; by apply Hd, Hdone).
           apply (IH Hrefs' (p ++ [r])
                     (<[getSubCategory self := true]> done)
                     (ret_ ++ [getSubCategory self])).
           ++ intros x. rewrite elem_of_app, list_elem_of_singleton.
              rewrite <- Hdone.
              destruct (decide (x = getSubCategory self)) as [->|Hne].
              ** rewrite lookup_insert_eq. split; [auto|]. by eexists.
              ** rewrite lookup_insert_ne by done. split; [auto|].
                 by intros [?|?].
           ++ apply NoDup_app. split; [done|]. split.
              ** intros x Hx Hx'. apply list_elem_of_singleton in Hx'.
                 by subst x.
              ** apply NoDup_singleton.
           ++ intros x. rewrite Hsubs, !elem_of_app, Hin. done.
           ++ rewrite Hsubs. by apply sublist_app.
        -- apply (IH Hrefs' (p ++ [r]) done ret_); [done|done| |].
           ++ intros x. by rewrite Hsubs, app_nil_r.
           ++ by rewrite Hsubs, app_nil_r.
    + unfold ret. rewrite Hactive in Hsubs. simpl in Hsubs.
      apply (IH Hrefs' (p ++ [r]) done ret_); [done|done| |].
      * intros x. by rewrite Hsubs, app_nil_r.
      * by rewrite Hsubs, app_nil_r.
Qed.

Lemma getSubCategoriesFor_spec :
  ∃ subs,
    getSubCategoriesFor conditions category st = (st, Ok subs) ∧
    NoDup subs ∧
    (∀ x, x ∈ subs ↔
          ∃ r, r ∈ settingsList st ∧
               active_in conditions st category r = true ∧
               subcategory_of st r = x) ∧
    subs `sublist_of`
      active_subcategories conditions st category (settingsList st).
Proof.
  destruct (getSubCategoriesFor_loop (settingsList st) (wf_list st Hwf)
              [] ∅ [])
    as (done' & subs & Hrun & Hnodup & Hin & Hsub).
  - intros x. rewrite lookup_empty. split; [by intros [? ?]|].
    by intros ?%not_elem_of_nil.
  - apply NoDup_nil_2.
  - done.
  - done.
  - exists subs. split; [|split; [done|split; [|done]]].
    + unfold getSubCategoriesFor, bind at 1, gets. unfold bind at 1.
      match goal with
      | |- context [for_fold ?l ?a ?body st] =>
          replace (for_fold l a body st) with (st, Ok (done', subs))
            by (symmetry; exact Hrun)
      end.
      reflexivity.
    + intros x. rewrite Hin. unfold active_subcategories. simpl.
      rewrite list_elem_of_fmap. split.
      * intros (r & -> & Hr). apply list_elem_of_In, List.filter_In in Hr.
        destruct Hr as [Hr Hact]. apply list_elem_of_In in Hr. eauto.
      * intros (r & Hr & Hact & <-). exists r. split; [done|].
        apply list_elem_of_In, List.filter_In. by rewrite <- list_elem_of_In.
Qed.


End Queries.


Lemma List_filter_sublist {A} (f g : A → bool) (l : list A) :
  (∀ x, f x = true → g x = true) →
  List.filter f l `sublist_of` List.filter g l.
Proof.
  intros Hfg. induction l as [|x l IH]; simpl; [constructor|].
  destruct (f x) eqn:Hf.
  - rewrite (Hfg x Hf). by constructor.
  - destruct (g x); [by constructor|done].
Qed.

Lemma List_filter_sublist_all {A} (f : A → bool) (l : list A) :
  List.filter f l `sublist_of` l.
Proof.
  induction l as [|x l IH]; simpl; [constructor|].
  destruct (f x); by constructor.
Qed.

Lemma getSettingsForCategory_loop (conditions : nat → list (state → bool))
  (st : state) (category : string) (subCategory : option string)
  (l : list nat) :
  (∀ r, r ∈ l → (r < length (heap st))%nat) →
  ∀ acc : list nat,
  for_fold l acc (fun s ret_ =>
    do self <- deref s;
    if String.eqb (getCategory self) category
       && match subCategory with
          | None => true
          | Some sub => String.eqb (getSubCategory self) sub
          end
    then
      do active <- checkConditions conditions s;
      if active then ret (ret_ ++ [s]) else ret ret_
    else ret ret_) st
  = (st, Ok (acc ++ List.filter
               (fun r => active_in conditions st category r
                         && match subCategory with
                            | None => true
                            | Some sub => String.eqb (subcategory_of st r) sub
                            end) l)).
Proof.
  induction l as [|r l IH]; intros Hrefs acc; simpl.
  - by rewrite app_nil_r.
  - destruct (lookup_lt_is_Some_2 (heap st) r) as [self Hself];
      [apply Hrefs, list_elem_of_here|].
    assert (Hrefs' : ∀ z, z ∈ l → (z < length (heap st))%nat)
      by (intros z Hz; by apply Hrefs, list_elem_of_further).
    unfold bind at 1, bind at 1, deref. rewrite Hself.
    unfold active_in at 1, subcategory_of at 1. rewrite Hself.
    destruct (String.eqb (getCategory self) category); simpl;
      [|unfold ret; by apply IH].
    destruct (match subCategory with
              | Some sub => String.eqb (getSubCategory self) sub
              | None => true
              end); [|rewrite andb_false_r; unfold ret; by apply IH].
    unfold bind, checkConditions.
    destruct (forallb _ _); simpl; unfold ret; [|by apply IH].
    rewrite IH by done. by rewrite <- app_assoc.
Qed.

(** The loop of [getSettingsForCategory] is a filter on the list. *)
Lemma getSettingsForCategory_filter (conditions : nat → list (state → bool))
  (st : state) (category : string) (subCategory : option string) :
  wf st →
  getSettingsForCategory conditions category subCategory st
  = (st, Ok (List.filter
               (fun r => active_in conditions st category r
                         && match subCategory with
                            | None => true
                            | Some sub => String.eqb (subcategory_of st r) sub
                            end)
               (settingsList st))).
Proof.
  intros Hwf. unfold getSettingsForCategory, bind at 1, gets.
  by rewrite getSettingsForCategory_loop by (by apply wf_list).
Qed.

(** X8. The two queries fit together.  [getSettingsForCategory(category)]
    returns, in list order, the settings of the category whose conditions
    hold; each of them has its subcategory in
    [getSubCategoriesFor(category)]; and for any subcategory the query
    restricted to it returns the part of that result with this subcategory,
    which is non-empty exactly for the subcategories the other query lists. *)
Theorem queries_agree (conditions : nat → list (state → bool)) (st : state)
  (category : string) :
  wf st →
  ∃ subs all,
    getSubCategoriesFor conditions category st = (st, Ok subs) ∧
    getSettingsForCategory conditions category None st = (st, Ok all) ∧
    all `sublist_of` settingsList st ∧
    (∀ r, r ∈ all ↔
          r ∈ settingsList st ∧ active_in conditions st category r = true) ∧
    (∀ r, r ∈ all → subcategory_of st r ∈ subs) ∧
    ∀ sub, ∃ part,
      getSettingsForCategory conditions category (Some sub) st
        = (st, Ok part) ∧
      part `sublist_of` all ∧
      (∀ r, r ∈ part ↔ r ∈ all ∧ subcategory_of st r = sub) ∧
      (part ≠ [] ↔ sub ∈ subs).
Proof.
  intros Hwf.
  destruct (getSubCategoriesFor_spec conditions st Hwf category)
    as (subs & Hsubs & _ & Hin & _).
  assert (Hall : ∀ r,
    r ∈ List.filter (fun r => active_in conditions st category r && true)
                    (settingsList st) ↔
    r ∈ settingsList st ∧ active_in conditions st category r = true).
  { intros r. rewrite list_elem_of_In, List.filter_In, andb_true_r.
    by rewrite <- list_elem_of_In. }
  eexists subs, _. split; [done|].
  split; [by apply getSettingsForCategory_filter|].
  split; [apply List_filter_sublist_all|]. split; [exact Hall|]. split.
  - intros r Hr. apply Hall in Hr as [Hr Hact]. apply Hin. eauto.
  - intros sub. eexists. split; [by apply getSettingsForCategory_filter|].
    assert (Hpart : ∀ r,
      r ∈ List.filter
            (fun r => active_in conditions st category r
                      && String.eqb (subcategory_of st r) sub)
            (settingsList st) ↔
      r ∈ List.filter (fun r => active_in conditions st category r && true)
                      (settingsList st) ∧ subcategory_of st r = sub).
    { intros r. rewrite Hall, list_elem_of_In, List.filter_In.
      rewrite <- list_elem_of_In, andb_true_iff, String.eqb_eq. tauto. }
    split; [|split; [exact Hpart|]].
    + apply List_filter_sublist. intros r Hr.
      apply andb_true_iff in Hr as [-> _]. done.
    + rewrite Hin. split.
      * intros Hne.
        destruct (List.filter
                    (fun r => active_in conditions st category r
                              && String.eqb (subcategory_of st r) sub)
                    (settingsList st)) as [|r part] eqn:Hf; [done|].
        assert (Hr : r ∈ r :: part) by apply list_elem_of_here.
        apply Hpart in Hr as [Hr Hsub].
        apply Hall in Hr as [Hr Hact]. eauto.
      * intros (r & Hr & Hact & Hsub) Hnil.
        assert (Hr' : r ∈ List.filter
                          (fun r => active_in conditions st category r
                                    && String.eqb (subcategory_of st r) sub)
                          (settingsList st)).
        { apply Hpart. split; [|done]. by apply Hall. }
        rewrite Hnil in Hr'. by apply not_elem_of_nil in Hr'.
Qed.

Lemma queries_agree_witness :
  ∃ subs all,
    getSubCategoriesFor (fun _ => []) "basic" initial_state
      = (initial_state, Ok subs) ∧
    getSettingsForCategory (fun _ => []) "basic" None initial_state
      = (initial_state, Ok all) ∧
    all `sublist_of` settingsList initial_state.
Proof.
  destruct (queries_agree (fun _ => []) initial_state "basic"
              initial_state_wf) as (subs & all & H1 & H2 & H3 & _).
  by exists subs, all.
Defined.

(** ** Access by name *)








(** ** resetProfile *)

(** For an explicit index [0 <= i], [getValue] at every other index
    [0 <= j] is as before the call. *)
Lemma setValue_keeps_others (sel sel' : Z) (self : setting) (value : pyvalue)
  (i j : Z) :
  0 <= i → 0 <= j → j ≠ i →
  getValue sel' (fst (setValue sel self value (Some i))) (Some j)
  = getValue sel' self (Some j).
Proof.
  intros Hi Hj Hne.
  pose proof (setValue_nonneg_values sel self value i Hi) as Hvals.
  simpl in Hvals.
  assert (Hdef : _default (fst (setValue sel self value (Some i)))
                 = _default self).
  { unfold setValue. destruct (unicode value); [|done].
    by destruct (list_setitem _ _ _). }
  rewrite !getValue_nonneg_lookup by done. rewrite Hdef, Hvals. f_equal.
  assert (Hpad : ∀ n : nat,
    default (_default self)
            ((_values self ++ replicate n (_default self)) !! Z.to_nat j)
    = default (_default self) (_values self !! Z.to_nat j)).
  { intros n.
    destruct (decide (Z.to_nat j < length (_values self))%nat) as [Hlt|Hge].
    - by rewrite lookup_app_l.
    - rewrite lookup_app_r by lia.
      rewrite (lookup_ge_None_2 (_values self)) by lia. simpl.
      destruct (replicate n (_default self) !! _) as [d|] eqn:Hd; [|done].
      apply lookup_replicate in Hd as [-> _]. done. }
  destruct (unicode value); [rewrite list_lookup_insert_ne by lia|];
    apply Hpad.
Qed.

Lemma reset_setting_eq (sel : Z) (self : setting) :
  0 <= sel →
  reset_setting sel self
  = with_values self
      (<[Z.to_nat (getValueIndex sel self) := _default self]>
         (_values self
          ++ replicate (Z.to_nat (getValueIndex sel self + 1
                                  - Z.of_nat (length (_values self))))
                       (_default self))).
Proof.
  intros Hsel. unfold reset_setting.
  change (setValue sel self (PyUnicode (getDefault self)) None)
    with (setValue sel self (PyUnicode (getDefault self))
                   (Some (getValueIndex sel self))).
  rewrite (setValue_nonneg sel self _ _ (_default self)); [done| |done].
  rewrite getValueIndex_cases. destruct (isPreference self); lia.
Qed.

(** Resetting twice is resetting once. *)
Lemma reset_setting_idem (sel : Z) (self : setting) :
  0 <= sel →
  reset_setting sel (reset_setting sel self) = reset_setting sel self.
Proof.
  intros Hsel.
  assert (Hidx : 0 <= getValueIndex sel self)
    by (rewrite getValueIndex_cases; destruct (isPreference self); lia).
  rewrite (reset_setting_eq sel self Hsel).
  set (V := <[Z.to_nat (getValueIndex sel self) := _default self]> _).
  rewrite (reset_setting_eq sel (with_values self V) Hsel).
  change (getValueIndex sel (with_values self V))
    with (getValueIndex sel self).
  cbn [with_values _values _default _name _label _tooltip _type _category
       _subcategory _validators].
  f_equal.
  assert (HlenV : (Z.to_nat (getValueIndex sel self) < length V)%nat).
  { subst V. rewrite length_insert, length_app, length_replicate. lia. }
  replace (Z.to_nat (getValueIndex sel self + 1 - Z.of_nat (length V)))
    with 0%nat by lia.
  simpl. rewrite app_nil_r. subst V. by rewrite list_insert_insert_eq.
Qed.

Lemma reset_setting_reads_default (sel : Z) (self : setting) :
  0 <= sel →
  getValue sel (reset_setting sel self) None = Ok (_default self).
Proof.
  intros Hsel. unfold reset_setting.
  by destruct (setValue_then_getValue_default_index sel self
                 (PyUnicode (getDefault self)) (_default self) Hsel eq_refl).
Qed.

(** The loop of [resetProfile] over the references [l], started in a state
    [cur] in which the settings marked by [D] are reset already. *)
Lemma resetProfile_loop (st : state) :
  0 <= _selectedMachineIndex st →
  ∀ (l : list nat),
    (∀ r, r ∈ l → (r < length (heap st))%nat) →
  ∀ (cur : list setting) (D : nat → bool),
    length cur = length (heap st) →
    (∀ r self, heap st !! r = Some self →
       cur !! r = Some (if D r && isProfile self
                        then reset_setting (_selectedMachineIndex st) self
                        else self)) →
    ∃ fin D',
      for_each l (fun set =>
        do self <- deref set;
        if negb (isProfile self) then ret tt
        else call_setValue set (PyUnicode (getDefault self)) None)
        (with_heap st cur)
      = (with_heap st fin, Ok tt) ∧
      length fin = length (heap st) ∧
      (∀ r self, heap st !! r = Some self →
         fin !! r = Some (if D' r && isProfile self
                          then reset_setting (_selectedMachineIndex st) self
                          else self)) ∧
      (∀ r, D' r = true ↔ D r = true ∨ r ∈ l).
Proof.
  intros Hsel. induction l as [|r l IH]; intros Hrefs cur D Hlen Hcur.
  - exists cur, D. split; [done|]. split; [done|]. split; [done|].
    intros r. rewrite elem_of_nil. tauto.
  - destruct (lookup_lt_is_Some_2 (heap st) r) as [self Hself];
      [apply Hrefs, list_elem_of_here|].
    assert (Hrefs' : ∀ z, z ∈ l → (z < length (heap st))%nat)
      by (intros z Hz; by apply Hrefs, list_elem_of_further).
    pose proof (Hcur r self Hself) as Hr.
    assert (Hlt : (r < length cur)%nat) by (by eapply lookup_lt_Some).
    set (D1 := fun z => D z || bool_decide (z = r)).
    assert (Hstep : ∃ cur1,
      (do self <- deref r;
       if negb (isProfile self) then ret tt
       else call_setValue r (PyUnicode (getDefault self)) None)
        (with_heap st cur)
      = (with_heap st cur1, Ok tt) ∧
      length cur1 = length (heap st) ∧
      ∀ z s, heap st !! z = Some s →
        cur1 !! z = Some (if D1 z && isProfile s
                          then reset_setting (_selectedMachineIndex st) s
                          else s)).
    { unfold bind at 1, deref. cbn [heap with_heap]. rewrite Hr.
      destruct (isProfile self) eqn:Hprof.
      - set (X := if D r && true
                  then reset_setting (_selectedMachineIndex st) self
                  else self) in *.
        assert (HX : isProfile X = true ∧
                     reset_setting (_selectedMachineIndex st) X
                     = reset_setting (_selectedMachineIndex st) self).
        { subst X. destruct (D r); simpl; [|done].
          split; [|by apply reset_setting_idem].
          unfold reset_setting.
          destruct (setValue_static (_selectedMachineIndex st) self
                      (PyUnicode (getDefault self)) None) as [_ Hcat].
          by rewrite (isProfile_category _ self Hcat). }
        destruct HX as [HXp HXr]. rewrite HXp. simpl.
        exists (<[r := reset_setting (_selectedMachineIndex st) self]> cur).
        split; [|split].
        + unfold call_setValue, bind, deref. cbn [heap with_heap]. rewrite Hr.
          cbn [_selectedMachineIndex with_heap].
          pose proof (setValue_then_getValue_default_index
                        (_selectedMachineIndex st) X
                        (PyUnicode (getDefault X)) (getDefault X) Hsel
                        eq_refl) as [Hres _].
          fold (reset_setting (_selectedMachineIndex st) X) in *.
          unfold reset_setting in HXr.
          destruct (setValue _ X _ None) as [X' res]. simpl in *.
          subst X' res. reflexivity.
        + by rewrite length_insert.
        + intros z s Hz. subst D1. simpl.
          destruct (decide (z = r)) as [->|Hne].
          * rewrite list_lookup_insert_eq by lia.
            rewrite bool_decide_eq_true_2, orb_true_r by done.
            rewrite Hself in Hz. injection Hz as <-. by rewrite Hprof.
          * rewrite list_lookup_insert_ne by done.
            rewrite bool_decide_eq_false_2, orb_false_r by done.
            by apply Hcur.
      - rewrite andb_false_r in Hr |- *. rewrite Hprof. simpl.
        exists cur. split; [done|]. split; [done|].
        intros z s Hz. subst D1. simpl.
        destruct (decide (z = r)) as [->|Hne].
        + rewrite Hself in Hz. injection Hz as <-.
          by rewrite Hprof, andb_false_r.
        + rewrite bool_decide_eq_false_2, orb_false_r by done.
          by apply Hcur. }
    destruct Hstep as (cur1 & Hstep & Hlen1 & Hcur1).
    destruct (IH Hrefs' cur1 D1 Hlen1 Hcur1)
      as (fin & D' & Hrun & Hlenf & Hfin & HD').
    exists fin, D'. split; [|split; [done|split; [done|]]].
    + cbn [for_each]. unfold bind at 1. rewrite Hstep. exact Hrun.
    + intros z. rewrite HD'. subst D1. simpl.
      rewrite orb_true_iff, bool_decide_eq_true, elem_of_cons. tauto.
Qed.

(** X11. [resetProfile()], in a well-formed state with a non-negative
    selected index, returns normally.  Afterwards every profile setting of
    the list reads its default at the current index and, at every other
    index, what it read before; settings of the other categories, the
    registries, the files and stderr are untouched. *)
Theorem resetProfile_defaults (st : state) :
  wf st →
  0 <= _selectedMachineIndex st →
  ∃ fin,
    resetProfile st = (with_heap st fin, Ok tt) ∧
    length fin = length (heap st) ∧
    (∀ r self, r ∈ settingsList st → heap st !! r = Some self →
       isProfile self = true →
       ∃ self', fin !! r = Some self' ∧
         _name self' = _name self ∧ _default self' = _default self ∧
         getValue (_selectedMachineIndex st) self' None
           = Ok (_default self) ∧
         ∀ j, 0 <= j → j ≠ _selectedMachineIndex st →
              getValue (_selectedMachineIndex st) self' (Some j)
              = getValue (_selectedMachineIndex st) self (Some j)) ∧
    (∀ r self, heap st !! r = Some self → isProfile self = false →
               fin !! r = Some self).
Proof.
  intros Hwf Hsel.
  destruct (resetProfile_loop st Hsel (settingsList st) (wf_list st Hwf)
              (heap st) (fun _ => false) eq_refl)
    as (fin & D' & Hrun & Hlen & Hfin & HD'); [done|].
  exists fin. split; [|split; [done|split]].
  - unfold resetProfile, bind at 1, gets.
    replace st with (with_heap st (heap st)) at 2 by (by destruct st).
    exact Hrun.
  - intros r self Hr Hself Hprof.
    exists (reset_setting (_selectedMachineIndex st) self).
    assert (HD : D' r = true) by (apply HD'; auto).
    split; [by rewrite (Hfin r self Hself), HD, Hprof|].
    split; [unfold reset_setting; apply setValue_static|].
    assert (Hidx : getValueIndex (_selectedMachineIndex st) self
                   = _selectedMachineIndex st).
    { rewrite getValueIndex_cases. unfold isProfile in Hprof.
      by destruct (isPreference self). }
    split; [by rewrite reset_setting_eq|].
    split; [by apply reset_setting_reads_default|].
    intros j Hj Hne. unfold reset_setting.
    change (setValue ?s self ?v None)
      with (setValue s self v (Some (getValueIndex s self))).
    rewrite Hidx. by apply setValue_keeps_others.
  - intros r self Hself Hprof.
    by rewrite (Hfin r self Hself), Hprof, andb_false_r.
Qed.

Lemma resetProfile_defaults_witness :
  ∃ fin,
    resetProfile tuned_state = (with_heap tuned_state fin, Ok tt) ∧
    length fin = length (heap tuned_state).
Proof.
  destruct (resetProfile_defaults tuned_state tuned_state_wf
              ltac:(simpl; lia)) as (fin & Hrun & Hlen & _).
  by exists fin.
Defined.

(** ** The profile string on arbitrary input *)








(** What the example does: [language] is skipped, [step_delay] is set, and
    the option without [=] raises after that. *)
Example setProfileFromString_not_atomic :
  let res := @setProfileFromString plain_codecs
               ("language=French" +:+ str1 BS +:+ "step_delay=7" +:+ str1 BS
                +:+ "broken" +:+ str1 FF) initial_state in
  snd res = Raise ValueError ∧
  map _values (heap (fst res)) = [[]; [ustr "7"]; []; []].
Proof. split; reflexivity. Qed.

(** A key the dictionary does not hold is skipped, in either block. *)
Lemma apply_option_unknown_key (any : bool) (key value : string)
  (st : state) :
  str_contains EQ key = false →
  settingsDictionary st !! key = None →
  apply_option any (pair_text (key, value)) st = (st, Ok tt).
Proof.
  intros Heq Hd. unfold apply_option, pair_text. cbn [fst snd].
  rewrite pair_nonempty. unfold str_split1.
  change (key +:+ str1 EQ +:+ value) with (key +:+ String EQ value).
  rewrite str_partition_at by done. simpl.
  unfold bind at 1, lift. unfold bind at 1, gets. by rewrite Hd.
Qed.

Lemma for_each_unknown_keys (any : bool) (pairs : list (string * string))
  (st : state) :
  Forall (fun kv => str_contains EQ (fst kv) = false ∧
                    settingsDictionary st !! fst kv = None) pairs →
  for_each (map pair_text pairs) (apply_option any) st = (st, Ok tt).
Proof.
  induction 1 as [|[key value] pairs [Heq Hd] _ IH]; simpl; [done|].
  unfold bind. by rewrite apply_option_unknown_key.
Qed.

Lemma pair_text_contains (c : ascii) (kv : string * string) :
  Ascii.eqb EQ c = false →
  str_contains c (pair_text kv)
  = str_contains c (fst kv) || str_contains c (snd kv).
Proof.
  intros Hc. unfold pair_text.
  change (fst kv +:+ str1 EQ +:+ snd kv)
    with (fst kv +:+ String EQ (snd kv)).
  rewrite str_contains_app. cbn [str_contains]. by rewrite Hc.
Qed.

(** X13. Unknown keys are ignored.  When no key of either block is in the
    dictionary (keys without [=], keys and values without the pair
    separator, the primary block without the block separator), decoding
    returns normally and the state is exactly as before. *)
Theorem setProfileFromString_unknown_keys {codecs : Codecs} (st : state)
  (primary alt : list (string * string)) :
  Forall (fun kv => str_contains EQ (fst kv) = false ∧
                    settingsDictionary st !! fst kv = None ∧
                    str_contains BS (fst kv) = false ∧
                    str_contains BS (snd kv) = false) (primary ++ alt) →
  Forall (fun kv => str_contains FF (fst kv) = false ∧
                    str_contains FF (snd kv) = false) primary →
  setProfileFromString
    (b64encode
       (zlib_compress
          (str_join BS (map pair_text primary) +:+ str1 FF
           +:+ str_join BS (map pair_text alt)) 9)) st
  = (st, Ok tt).
Proof.
  intros Hall Hff. apply Forall_app in Hall as [Hprimary Halt].
  assert (Hbs : ∀ l : list (string * string),
    Forall (fun kv => str_contains EQ (fst kv) = false ∧
                      settingsDictionary st !! fst kv = None ∧
                      str_contains BS (fst kv) = false ∧
                      str_contains BS (snd kv) = false) l →
    Forall (fun x => str_contains BS x = false) (map pair_text l) ∧
    Forall (fun kv => str_contains EQ (fst kv) = false ∧
                      settingsDictionary st !! fst kv = None) l).
  { intros l Hl. split.
    - apply Forall_fmap. eapply Forall_impl; [exact Hl|].
      intros kv (_ & _ & Hk & Hv). simpl.
      by rewrite pair_text_contains, Hk, Hv.
    - eapply Forall_impl; [exact Hl|]. by intros kv (? & ? & _). }
  destruct (Hbs primary Hprimary) as [Hp1 Hp2].
  destruct (Hbs alt Halt) as [Ha1 Ha2].
  unfold setProfileFromString.
  unfold bind at 1, lift. rewrite b64decode_b64encode.
  unfold bind at 1. rewrite zlib_decompress_compress.
  unfold str_split1.
  change (str_join BS (map pair_text primary) +:+ str1 FF
          +:+ str_join BS (map pair_text alt))
    with (str_join BS (map pair_text primary)
          +:+ String FF (str_join BS (map pair_text alt))).
  rewrite str_partition_at.
  - simpl. unfold bind at 1. unfold bind at 1.
    rewrite for_each_split_join, for_each_unknown_keys by done.
    by rewrite for_each_split_join, for_each_unknown_keys.
  - apply str_contains_join; [done|].
    apply Forall_fmap. eapply Forall_impl; [exact Hff|].
    intros kv [Hk Hv]. simpl. by rewrite pair_text_contains, Hk, Hv.
Qed.

Lemma setProfileFromString_unknown_keys_witness :
  @setProfileFromString plain_codecs
    ("nozzle_size=0.4" +:+ str1 BS +:+ "layer_height=0.1" +:+ str1 FF
     +:+ "plugin_config=x=y") initial_state
  = (initial_state, Ok tt).
Proof.
  apply (@setProfileFromString_unknown_keys plain_codecs initial_state
           [("nozzle_size", "0.4"); ("layer_height", "0.1")]
           [("plugin_config", "x=y")]).
  - repeat (apply Forall_cons; split; [by repeat split|]). apply Forall_nil_2.
  - repeat (apply Forall_cons; split; [by repeat split|]). apply Forall_nil_2.
Defined.

(** X14. The alt block reaches every category.  A string with an empty
    primary block and one alt pair whose key is in the dictionary does what
    [setValue(value)] does on that setting, be it a profile setting, a
    preference or a machine setting, and raises what it raises. *)
Theorem setProfileFromString_alt_block {codecs : Codecs} (st : state)
  (key value : string) (r : nat) :
  settingsDictionary st !! key = Some r →
  str_contains EQ key = false →
  str_contains BS key = false →
  str_contains BS value = false →
  setProfileFromString
    (b64encode (zlib_compress (str1 FF +:+ pair_text (key, value)) 9)) st
  = call_setValue r (PyStr value) None st.
Proof.
  intros Hd Heq Hk Hv. unfold setProfileFromString.
  unfold bind at 1, lift. rewrite b64decode_b64encode.
  unfold bind at 1. rewrite zlib_decompress_compress.
  transitivity
    ((do _ <- for_each [EmptyString] (apply_option false);
      for_each (str_split BS (pair_text (key, value))) (apply_option true))
       st); [reflexivity|].
  rewrite str_split_absent
    by (by rewrite pair_text_contains; [cbn [fst snd]; rewrite Hk, Hv|]).
  transitivity
    ((do _ <- apply_option true (pair_text (key, value)); ret tt) st);
    [reflexivity|].
  assert (Happly : apply_option true (pair_text (key, value)) st
                   = call_setValue r (PyStr value) None st).
  { unfold apply_option, pair_text. cbn [fst snd].
    rewrite pair_nonempty. unfold str_split1.
    change (key +:+ str1 EQ +:+ value) with (key +:+ String EQ value).
    rewrite str_partition_at by done. cbn [unpack2].
    unfold bind at 1, lift. unfold bind at 1, gets. by rewrite Hd. }
  unfold bind. rewrite Happly.
  destruct (call_setValue r (PyStr value) None st) as [st1 [[]|e]]; done.
Qed.

Lemma setProfileFromString_alt_block_witness :
  @setProfileFromString plain_codecs
    (str1 FF +:+ pair_text ("language", "French")) initial_state
  = call_setValue 3 (PyStr "French") None initial_state.
Proof.
  exact (@setProfileFromString_alt_block plain_codecs initial_state
           "language" "French" 3 eq_refl eq_refl eq_refl eq_refl).
Defined.

(** ** saveProfile for the selected machine *)




(** ** savePreferences and the name [machine_name] *)




(** The loop over the machines never reaches its exit when the name is not
    empty at any index. *)
Lemma machine_sections_no_exit (st : state) (r : nat) (self : setting) :
  (∀ r, r ∈ settingsList st → (r < length (heap st))%nat) →
  settingsDictionary st !! "machine_name" = Some r →
  heap st !! r = Some self →
  isMachineSetting self = true →
  (∀ n : nat, ∃ v,
     getValue (_selectedMachineIndex st) self (Some (Z.of_nat n)) = Ok v
     ∧ v ≠ []) →
  ∀ (fuel n : nat) (p : ConfigParser),
    (∀ m, machine_section_name m ∈ map fst p → (m < n)%nat) →
    machine_sections fuel (Z.of_nat n) p st = None.
Proof.
  intros Hrefs Hd Hr Hm Hall.
  induction fuel as [|fuel IH]; intros n p Hnames; [reflexivity|].
  cbn [machine_sections].
  rewrite (getMachineSetting_found st _ r self) by done.
  destruct (Hall n) as (v & Hv & Hne). rewrite Hv.
  replace (py_is_empty (PyUnicode v)) with false by (by destruct v).
  rewrite machine_section_ok; [|done|].
  - replace (Z.of_nat n + 1) with (Z.of_nat (S n)) by lia.
    apply IH.
    intros m Hin. rewrite map_app in Hin. apply elem_of_app in Hin.
    destruct Hin as [Hin|Hin]; [apply Hnames in Hin; lia|].
    simpl in Hin. apply list_elem_of_singleton in Hin.
    apply machine_section_name_inj in Hin. lia.
  - intros Hin. apply Hnames in Hin. lia.
Qed.

(** X17. The loop of [savePreferences] ends only on an empty machine name.
    When [machine_name] is a machine setting whose default is not the empty
    string and none of whose stored values is empty, the test
    [getMachineSetting('machine_name', n) != ''] holds for every [n]: no
    amount of fuel lets [savePreferences] return, and nothing is written. *)
Theorem savePreferences_no_end (st : state) (filename : string)
  (r : nat) (self : setting) :
  wf st →
  settingsDictionary st !! "machine_name" = Some r →
  heap st !! r = Some self →
  isMachineSetting self = true →
  _default self ≠ [] →
  Forall (fun v => v ≠ []) (_values self) →
  ∀ fuel, savePreferences fuel filename st = None.
Proof.
  intros Hwf Hd Hr Hm Hdef Hvals fuel.
  pose proof (wf_list st Hwf) as Hrefs.
  assert (Hall : ∀ n : nat, ∃ v,
            getValue (_selectedMachineIndex st) self (Some (Z.of_nat n)) = Ok v
            ∧ v ≠ []).
  { intros n.
    destruct (Z.le_gt_cases (Z.of_nat (length (_values self))) (Z.of_nat n))
      as [Hge|Hlt].
    - exists (_default self). split; [|done]. by apply getValue_beyond.
    - destruct (lookup_lt_is_Some_2 (_values self) n) as [v Hv]; [lia|].
      exists v. split.
      + apply getValue_stored; [lia|]. by rewrite Nat2Z.id.
      + rewrite Forall_lookup in Hvals. by eapply Hvals. }
  unfold savePreferences, savePreferences_parser.
  rewrite preference_section_ok by done.
  rewrite (machine_sections_no_exit st r self Hrefs Hd Hr Hm Hall fuel 0%nat);
    [done|].
  intros m Hin. simpl in Hin. apply list_elem_of_singleton in Hin.
  discriminate Hin.
Qed.

Lemma savePreferences_no_end_witness :
  savePreferences 50 "preferences.ini"
    (fst (setting_init "machine_name" (PyStr "Unnamed") StrType "machine"
                       "hidden" (empty_state ∅ [])))
  = None.
Proof.
  apply (savePreferences_no_end _ "preferences.ini" 0%nat
           (mkSetting "machine_name" "machine_name" "" (ustr "Unnamed") []
                      StrType "machine" "hidden" [])).
  - apply setting_init_wf, empty_state_wf.
  - reflexivity.
  - reflexivity.
  - reflexivity.
  - discriminate.
  - apply Forall_nil_2.
Defined.

(** ** putPreference *)





(** ** The preferences string *)

(** The loop of [getPreferencesString] reads every preference at index 0 and
    changes nothing. *)
Lemma preference_pairs_loop (st : state) (l : list nat) :
  (∀ r, r ∈ l → (r < length (heap st))%nat) →
  ∀ acc,
  for_fold l acc
    (fun set p =>
       do self <- deref set;
       if isPreference self then
         do v <- call_getValue set None;
         ret (p ++ [getName self +:+ str1 EQ +:+ encode_utf8 v])
       else ret p) st
  = (st, Ok (acc ++ expected_preference_pairs st l)) ∧
  length (expected_preference_pairs st l)
  = length (List.filter (fun r => match heap st !! r with
                                  | Some self => isPreference self
                                  | None => false
                                  end) l).
Proof.
  intros Hrefs. induction l as [|r l IH]; intros acc.
  - split; [|done]. simpl. by rewrite app_nil_r.
  - destruct (lookup_lt_is_Some_2 (heap st) r) as [self Hself];
      [apply Hrefs, list_elem_of_here|].
    assert (Hrefs' : ∀ z, z ∈ l → (z < length (heap st))%nat)
      by (intros z Hz; by apply Hrefs, list_elem_of_further).
    cbn [for_fold expected_preference_pairs flat_map List.filter].
    unfold bind at 1, bind at 1, deref. rewrite Hself.
    destruct (isPreference self) eqn:Hpref.
    + assert (Hidx : getValue (_selectedMachineIndex st) self None
                     = getValue 0 self (Some 0)).
      { rewrite getValue_None, getValueIndex_cases, Hpref. reflexivity. }
      destruct (getValue_nonneg_total 0 self 0 ltac:(lia)) as [v Hv].
      unfold call_getValue, bind, deref, ret. rewrite Hself, Hidx, Hv.
      destruct (IH Hrefs' (acc ++ [getName self +:+ str1 EQ +:+ encode_utf8 v]))
        as [Hrun Hlen].
      fold (expected_preference_pairs st l).
      split.
      * etransitivity; [exact Hrun|]. by rewrite <- app_assoc.
      * simpl. by rewrite Hlen.
    + unfold ret. destruct (IH Hrefs' acc) as [Hrun Hlen].
      fold (expected_preference_pairs st l). split; [exact Hrun|exact Hlen].
Qed.

(** X19. [getPreferencesString] in any well-formed state, whatever machine is
    selected (a negative selected index included): it never raises and leaves
    the state as it is; the encoded text is the pairs [name=value] joined by
    the pair separator, one pair for each preference in the order of
    [settingsList], the value read at index 0, and nothing for a profile or
    machine setting. *)
Theorem getPreferencesString_total {codecs : Codecs} (st : state) :
  wf st →
  getPreferencesString st
  = (st, Ok (b64encode
               (zlib_compress
                  (str_join BS
                     (expected_preference_pairs st (settingsList st))) 9))) ∧
  length (expected_preference_pairs st (settingsList st))
  = length (List.filter (fun r => match heap st !! r with
                                  | Some self => isPreference self
                                  | None => false
                                  end) (settingsList st)).
Proof.
  intros Hwf.
  destruct (preference_pairs_loop st (settingsList st) (wf_list st Hwf) [])
    as [Hrun Hlen].
  split; [|exact Hlen].
  unfold getPreferencesString, preference_pairs, bind at 1, bind at 1, gets.
  rewrite Hrun. reflexivity.
Qed.

Lemma getPreferencesString_total_witness :
  let st := mkState (heap initial_state) (settingsDictionary initial_state)
                    (settingsList initial_state) (-1) ∅ [] [] in
  @getPreferencesString plain_codecs st = (st, Ok "language=English").
Proof.
  intros st.
  destruct (@getPreferencesString_total plain_codecs st) as [Hrun _].
  - split; compute_done.
  - exact Hrun.
Defined.

(** ** insertNewlines *)

Lemma str_append_nil_r (s : string) : s +:+ "" = s.
Proof.
  induction s as [|c s IH]; [done|].
  change (String c s +:+ "") with (String c (s +:+ "")). by rewrite IH.
Qed.











(** ** putMachineSetting *)


